(** * The Coyote device driver: connection state machine, command codec
      and pulse shaping

    A shallow embedding of [device/coyote/device.py] (class [CoyoteDevice])
    and [device/coyote/pulse_generator.py] (class [PulseGenerator]).

    - Python integers are [Z]; [bytes]/[bytearray] values are [list byte];
      Python floats ([time.time()], pulse durations) are IEEE-754 binary64
      primitive floats.
    - The object [self] is the record [CoyoteDevice]; every method is a
      computation in the monad [M], which threads the object, the persisted
      settings store and an ordered trace of the effects visible outside
      (signals emitted, link operations, settings writes), and which can end
      with a Python exception.
    - The BLE library, the clock and the platform are the environment [Env]:
      the answer of the n-th library call is read from an oracle, so a
      statement quantified over [Env] covers every behaviour of the link.
    - Logging changes no state and is left out.  A coroutine is modelled as
      running from one call to its return; the points where it is suspended
      are the library calls. *)

From Stdlib Require Import ZArith List String Bool Lia Floats.
From Stdlib Require Import Strings.Byte.
From coqutil Require Import Datatypes.RecordSettersUsingExistingGetters.
Import ListNotations.

Local Open Scope Z_scope.

(** ** Constants of [device/coyote/constants.py]

    The constants module is not among the sources.  Two values are fixed by
    the specification; the others are parameters of the development. *)

(** Modelled from the spec: [device/coyote/constants.py] is missing; the
    command frame starts with the byte 0xB0 (section 4.1: "frame [0xB0,
    control_byte, ...]"). *)
Definition CMD_B0 : Z := 0xB0.

(** Modelled from the spec: [device/coyote/constants.py] is missing; the
    sequence number is a 4-bit counter that "increments mod 16" (section 3).
    The source agrees in its comment "Wrap seq at 4 bits (0-15)". *)
Definition SEQUENCE_MODULO : Z := 16.

(** The remaining constants, whose values neither the sources nor the
    specification give. *)
Class Constants := {
  CMD_POWER_UPDATE : Z;
  CMD_ACK : Z;
  CMD_ACTIVE_POWER : Z;
  INTERP_ABSOLUTE_SET : Z;
  INTERP_NO_CHANGE : Z;
  B0_NO_PULSES_PAD_BYTES : nat;
  PULSES_PER_PACKET : nat;
  SCAN_RETRY_SECONDS : float;
  MAIN_SERVICE_UUID : string;
  MIN_PULSE_DURATION_MS : Z;
  MAX_PULSE_DURATION_MS : Z
}.

(** ** Data types of [device/coyote/types.py] (dataclasses and one enum) *)

Inductive ConnectionStage :=
| DISCONNECTED | SCANNING | CONNECTING | SERVICE_DISCOVERY
| STATUS_SUBSCRIBE | SYNC_PARAMETERS | CONNECTED.

Definition ConnectionStage_eqb (a b : ConnectionStage) : bool :=
  match a, b with
  | DISCONNECTED, DISCONNECTED | SCANNING, SCANNING | CONNECTING, CONNECTING
  | SERVICE_DISCOVERY, SERVICE_DISCOVERY | STATUS_SUBSCRIBE, STATUS_SUBSCRIBE
  | SYNC_PARAMETERS, SYNC_PARAMETERS | CONNECTED, CONNECTED => true
  | _, _ => false
  end.

Module CoyoteStrengths.
Record t := mk { channel_a : Z; channel_b : Z }.
End CoyoteStrengths.

Module CoyotePulse.
Record t := mk { frequency : Z; intensity : Z; duration : Z }.
End CoyotePulse.

Module CoyotePulses.
Record t := mk { channel_a : list CoyotePulse.t; channel_b : list CoyotePulse.t }.
End CoyotePulses.

Module CoyoteParams.
Record t := mk {
  channel_a_limit : Z;
  channel_b_limit : Z;
  channel_a_freq_balance : Z;
  channel_b_freq_balance : Z;
  channel_a_intensity_balance : Z;
  channel_b_intensity_balance : Z
}.
End CoyoteParams.

(** A [BleakClient] object: the driver only ever holds the handle; what the
    link does is the environment's. *)
Record BleakClient := { client_address : string }.

(** The tick source attached by [start_updates]: an external object, known
    here by its handle only. *)
Record CoyoteAlgorithm := { algorithm_id : nat }.

(** ** The object *)

Record CoyoteDevice := {
  device_name : string;
  client : option BleakClient;
  algorithm : option CoyoteAlgorithm;
  running : bool;
  connection_stage : ConnectionStage;
  strengths : CoyoteStrengths.t;
  battery_level : Z;
  parameters : CoyoteParams.t;
  sequence_number : Z;
  _had_successful_connection : bool;
  _shutdown : bool;
  _force_disconnect : bool;
  _last_device_address : option string;
  _using_cached_address : bool;
  _cached_connect_failure_count : Z;
  _cached_connect_failure_limit : Z;
  _skip_cached_reconnect_scans : Z;
  _next_scan_time : float;
  _scan_attempt_counter : Z;
  _last_scan_elapsed : float;
  _scan_failure_streak : Z;
  _connect_failure_streak : Z;
  _logged_first_send_payload : bool;
  _first_active_power_seen : bool;
  _last_battery_poll : float;
  _last_parameter_resend : float
}.

(** ** Effects *)

Inductive Signal :=
| connection_status_changed (is_connected : bool) (stage : ConnectionStage)
| battery_level_changed (level : Z)
| power_levels_changed (s : CoyoteStrengths.t)
| pulse_sent (p : CoyotePulses.t).

(** What a method does that is visible outside the object, in order. *)
Inductive Effect :=
| Emit (s : Signal)
| QueryConnected (answer : bool)
| WriteGatt (frame : list byte) (ok : bool)
| Connect (ok : bool)
| Disconnect
| CreateClient (address : string)
| SettingsSet (address : string).

Inductive exn := IndexError | ValueError | TimeoutError | BleakError.

Inductive outcome (A : Type) :=
| Ret (a : A)
| Raise (e : exn).
Arguments Ret {A} a.
Arguments Raise {A} e.

(** The answer of a library call that can fail. *)
Inductive answer (A : Type) :=
| Ok (a : A)
| TimedOut
| Failed.
Arguments Ok {A} a.
Arguments TimedOut {A}.
Arguments Failed {A}.

(** A peripheral as the scanner reports it. *)
Record BLEDevice := {
  dev_name : option string;
  dev_address : string;
  adv_local_name : option string;
  adv_service_uuids : list string
}.

(** The environment: [sys.platform], the clock and the BLE library.  Every
    oracle is indexed by the number of library calls made so far. *)
Record Env := {
  platform_is_win : bool;
  time_time : nat -> float;
  is_connected : nat -> bool;
  write_gatt_char : nat -> bool;
  client_connect : nat -> answer unit;
  client_disconnect : nat -> answer unit;
  get_services : nat -> answer nat;
  start_notify : nat -> answer bool;
  read_gatt_char : nat -> answer (list byte);
  create_client_ok : nat -> bool;
  find_device_by_filter : nat -> answer (list BLEDevice);
  discover : nat -> answer (list BLEDevice);
  find_device_by_name : nat -> answer (option BLEDevice);
  backoff_scan_ok : nat -> bool;
  refresh_scan : nat -> answer (list BLEDevice * list BLEDevice);
  next_update_time : nat -> float;
  generate_packet : nat -> option CoyotePulses.t
}.

Record World := {
  self : CoyoteDevice;
  coyote_last_device_address : string;
  trace : list Effect;
  calls : nat
}.

Definition M (A : Type) : Type := World -> outcome A * World.

Definition ret {A} (a : A) : M A := fun w => (Ret a, w).
Definition raise {A} (e : exn) : M A := fun w => (Raise e, w).
Definition bind {A B} (m : M A) (k : A -> M B) : M B :=
  fun w => match m w with
           | (Ret a, w') => k a w'
           | (Raise e, w') => (Raise e, w')
           end.
(** [try: ... except Exception: ...] *)
Definition try_except {A} (m : M A) (handler : exn -> M A) : M A :=
  fun w => match m w with
           | (Ret a, w') => (Ret a, w')
           | (Raise e, w') => handler e w'
           end.

Declare Scope monad_scope.
Delimit Scope monad_scope with monad.
Notation "x <- m ;; k" := (bind m (fun x => k))
  (at level 61, m at next level, right associativity) : monad_scope.
Notation "m ;; k" := (bind m (fun _ => k))
  (at level 61, right associativity) : monad_scope.
Local Open Scope monad_scope.

Definition get : M CoyoteDevice := fun w => (Ret (self w), w).
Definition modify (f : CoyoteDevice -> CoyoteDevice) : M unit :=
  fun w => (Ret tt, w<|self ::= f|>).
Definition effect (e : Effect) : M unit :=
  fun w => (Ret tt, w<|trace ::= fun t => t ++ [e]|>).
Definition emit (s : Signal) : M unit := effect (Emit s).
(** One call into the library (or the clock): the oracle's answer for this
    call, and the call is counted. *)
Definition ask {A} (oracle : nat -> A) : M A :=
  fun w => (Ret (oracle (calls w)), w<|calls ::= S|>).
(** [ui_settings.coyote_last_device_address.set(address)] *)
Definition settings_set (address : string) : M unit :=
  fun w => (Ret tt, w<|coyote_last_device_address := address|>
                     <|trace ::= fun t => t ++ [SettingsSet address]|>).
Definition when (b : bool) (m : M unit) : M unit := if b then m else ret tt.

Definition is_some {A} (o : option A) : bool :=
  match o with Some _ => true | None => false end.

(** ** Python values *)

Definition Z_of_byte (b : byte) : Z := Z.of_N (Byte.to_N b).

(** [data[i]] on a [bytearray]: an integer in [range(256)], or [IndexError]. *)
Definition index (data : list byte) (i : nat) : M Z :=
  match nth_error data i with
  | Some b => ret (Z_of_byte b)
  | None => raise IndexError
  end.

Definition byte_of_Z (z : Z) : option byte :=
  if (0 <=? z) && (z <? 256) then Byte.of_N (Z.to_N z) else None.

(** [bytearray(l)] and [bytearray.extend(l)] on a list of integers:
    [ValueError] when one of them is outside [range(256)]. *)
Fixpoint to_bytes (l : list Z) : option (list byte) :=
  match l with
  | [] => Some []
  | z :: l' =>
      match byte_of_Z z, to_bytes l' with
      | Some b, Some bs => Some (b :: bs)
      | _, _ => None
      end
  end.

Definition bytearray (l : list Z) : M (list byte) :=
  match to_bytes l with
  | Some bs => ret bs
  | None => raise ValueError
  end.

Definition extend (command : list byte) (l : list Z) : M (list byte) :=
  match to_bytes l with
  | Some bs => ret (command ++ bs)
  | None => raise ValueError
  end.

(** ** Link primitives *)

(** [self.client and self.client.is_connected]: the library is asked only
    when there is a client object. *)
Definition client_is_connected (env : Env) : M bool :=
  d <- get ;;
  match client d with
  | None => ret false
  | Some _ =>
      b <- ask (is_connected env) ;;
      effect (QueryConnected b) ;;
      ret b
  end.

(** [await client.write_gatt_char(WRITE_CHAR_UUID, command)]; [false] stands
    for any exception of the call. *)
Definition client_write_gatt_char (env : Env) (command : list byte) : M bool :=
  ok <- ask (write_gatt_char env) ;;
  effect (WriteGatt command ok) ;;
  ret ok.

(** ** [_handle_status_notification] (device.py, lines 415-466) *)

Definition _handle_status_notification `{Constants} (data : list byte) : M unit :=
  match data with
  | [] => ret tt
  | _ :: _ =>
      command_id <- index data 0 ;;
      sequence_number <- index data 1 ;;
      power_a <- index data 2 ;;
      power_b <- index data 3 ;;
      if command_id =? CMD_POWER_UPDATE then
        modify (fun d => d<|strengths := CoyoteStrengths.mk power_a power_b|>) ;;
        d <- get ;;
        emit (power_levels_changed (strengths d))
      else if command_id =? CMD_ACK then
        ret tt
      else if command_id =? CMD_ACTIVE_POWER then
        if (List.length data <? 4)%nat then ret tt
        else
          d <- get ;;
          if negb (_first_active_power_seen d)
          then modify (fun d => d<|_first_active_power_seen := true|>)
          else ret tt
      else ret tt
  end.

(** ** [send_command] (device.py, lines 685-797) *)

Definition invalid_intensity (p : CoyotePulse.t) : bool :=
  (CoyotePulse.intensity p <? 0) || (CoyotePulse.intensity p >? 100).

Definition control_byte `{Constants} (seq : Z) (strengths : option CoyoteStrengths.t) : Z :=
  let interp_a := if is_some strengths then INTERP_ABSOLUTE_SET else INTERP_NO_CHANGE in
  let interp_b := if is_some strengths then INTERP_ABSOLUTE_SET else INTERP_NO_CHANGE in
  let request_ack := is_some strengths in
  Z.lor (Z.lor (Z.shiftl (if request_ack then seq else 0) 4) (Z.shiftl interp_a 2)) interp_b.

(** [valid_pulses]: the packet, or [None] when one intensity is outside
    0..100. *)
Definition validate_pulses (pulses : option CoyotePulses.t) : option CoyotePulses.t :=
  match pulses with
  | Some p =>
      let invalid_a := existsb invalid_intensity (CoyotePulses.channel_a p) in
      let invalid_b := existsb invalid_intensity (CoyotePulses.channel_b p) in
      if invalid_a || invalid_b then None else Some p
  | None => None
  end.

(** The frame: four header bytes, then the pulse bytes or the zero pad. *)
Definition build_command `{Constants} (seq : Z)
    (strengths : option CoyoteStrengths.t) (pulses : option CoyotePulses.t)
  : M (list byte) :=
  command <- bytearray [
      CMD_B0;
      control_byte seq strengths;
      match strengths with Some s => CoyoteStrengths.channel_a s | None => 0 end;
      match strengths with Some s => CoyoteStrengths.channel_b s | None => 0 end ] ;;
  match validate_pulses pulses with
  | Some v =>
      command <- extend command (map CoyotePulse.duration (CoyotePulses.channel_a v)) ;;
      command <- extend command (map CoyotePulse.intensity (CoyotePulses.channel_a v)) ;;
      command <- extend command (map CoyotePulse.duration (CoyotePulses.channel_b v)) ;;
      extend command (map CoyotePulse.intensity (CoyotePulses.channel_b v))
  | None =>
      extend command (repeat 0 B0_NO_PULSES_PAD_BYTES)
  end.

(** [for attempt in range(max_retries)]: the first write that succeeds
    advances the sequence number and returns [True]. *)
Fixpoint write_attempts (env : Env) (command : list byte) (retries : nat) : M bool :=
  match retries with
  | O => ret false
  | S retries' =>
      ok <- client_write_gatt_char env command ;;
      if ok then
        modify (fun d => d<|sequence_number := (sequence_number d + 1) mod SEQUENCE_MODULO|>) ;;
        ret true
      else write_attempts env command retries'
  end.

Definition send_command `{Constants} (env : Env)
    (new_strengths : option CoyoteStrengths.t) (pulses : option CoyotePulses.t) : M bool :=
  match pulses with Some p => emit (pulse_sent p) | None => ret tt end ;;
  up <- client_is_connected env ;;
  if negb up then
    match new_strengths with
    | Some s =>
        modify (fun d => d<|strengths :=
          CoyoteStrengths.mk (CoyoteStrengths.channel_a s) (CoyoteStrengths.channel_b s)|>)
    | None => ret tt
    end ;;
    ret false
  else if negb (is_some new_strengths) && negb (is_some pulses) then
    ret false
  else
    d <- get ;;
    command <- build_command (sequence_number d) new_strengths pulses ;;
    modify (fun d => d<|_logged_first_send_payload := true|>) ;;
    write_attempts env command 3.

(** ** Floats and strings of Python *)

(** [min(a, b)] and [max(a, b)] on two arguments: the first one wins a tie. *)
Definition py_min (a b : float) : float := if PrimFloat.ltb b a then b else a.
Definition py_max (a b : float) : float := if PrimFloat.ltb a b then b else a.

(** [float(z)] for an integer below 2^63 in absolute value. *)
Definition float_of_int (z : Z) : float :=
  if z <? 0 then PrimFloat.opp (PrimFloat.of_uint63 (Uint63.of_Z (- z)))
  else PrimFloat.of_uint63 (Uint63.of_Z z).

(** [str.lower()] on ASCII text. *)
Definition lower_ascii (c : Ascii.ascii) : Ascii.ascii :=
  let n := Ascii.nat_of_ascii c in
  if ((65 <=? n) && (n <=? 90))%nat then Ascii.ascii_of_nat (n + 32) else c.

Fixpoint lower (s : string) : string :=
  match s with
  | EmptyString => EmptyString
  | String c s' => String (lower_ascii c) (lower s')
  end.

Definition startswith (s p : string) : bool := String.prefix p s.

(** Truth value of an [Optional[str]]: [None] and the empty string are
    false. *)
Definition truthy (o : option string) : bool :=
  match o with
  | Some s => negb (String.eqb s EmptyString)
  | None => false
  end.

Definition or_empty (o : option string) : string :=
  match o with Some s => s | None => EmptyString end.

(** ** Teardown, recovery and the persisted address *)

Section Driver.
Context `{Constants}.
Variable env : Env.

Definition zero_pulses : CoyotePulses.t :=
  CoyotePulses.mk (repeat (CoyotePulse.mk 0 0 0) PULSES_PER_PACKET)
                  (repeat (CoyotePulse.mk 0 0 0) PULSES_PER_PACKET).

(** device.py, lines 799-823 *)
Definition _disconnect_client : M unit :=
  d <- get ;;
  when (is_some (client d))
    (modify (fun d => d<|running := false|>) ;;
     try_except (send_command env None (Some zero_pulses) ;; ret tt) (fun _ => ret tt) ;;
     _ <- ask (client_disconnect env) ;;
     effect Disconnect) ;;
  modify (fun d => d<|client := None|>).

(** device.py, lines 310-337; [extra_delay] is the connect-failure streak *)
Definition _recover_from_transient_failure (extra_delay : Z) : M unit :=
  _disconnect_client ;;
  modify (fun d => d<|_scan_attempt_counter := 0|>) ;;
  modify (fun d => d<|connection_stage := SCANNING|>) ;;
  if platform_is_win env && (extra_delay >? 0) then
    let backoff := py_min 5 (1 + float_of_int extra_delay * 1)%float in
    scanned <- ask (backoff_scan_ok env) ;;
    if scanned then ret tt
    else
      now <- ask (time_time env) ;;
      modify (fun d => d<|_next_scan_time := (now + backoff)%float|>)
  else
    now <- ask (time_time env) ;;
    modify (fun d => d<|_next_scan_time := (now + 1)%float|>).

(** device.py, lines 362-366 *)
Definition _remember_device_address (address : option string) : M unit :=
  modify (fun d => d<|_last_device_address := address|>) ;;
  modify (fun d => d<|_cached_connect_failure_count := 0|>) ;;
  modify (fun d => d<|_skip_cached_reconnect_scans := 0|>) ;;
  settings_set (or_empty address).

(** device.py, lines 339-360: the constructor may raise *)
Definition _create_client (address : string) : M BleakClient :=
  ok <- ask (create_client_ok env) ;;
  if ok then effect (CreateClient address) ;; ret {| client_address := address |}
  else raise BleakError.

(** ** [_scan_for_device] (device.py, lines 535-683) *)

Definition _finish (scan_start : float) (found : bool) : M bool :=
  now <- ask (time_time env) ;;
  modify (fun d => d<|_last_scan_elapsed := (now - scan_start)%float|>) ;;
  modify (fun d => d<|_scan_failure_streak := if found then 0 else _scan_failure_streak d + 1|>) ;;
  ret found.

Definition name_matches (target_name : string) (name : option string) : bool :=
  let n := lower (or_empty name) in
  String.eqb n target_name || startswith n "47l121".

(** [_is_target(device, advertisement_data)]; [with_adv] tells whether the
    advertisement data was passed. *)
Definition _is_target (target_name : string) (with_adv : bool) (dev : BLEDevice) : bool :=
  name_matches target_name (dev_name dev)
  || (with_adv
      && (name_matches target_name (adv_local_name dev)
          || existsb (fun u => String.eqb (lower u) (lower MAIN_SERVICE_UUID)
                               || String.eqb (lower u) "00001812-0000-1000-8000-00805f9b34fb")
                     (adv_service_uuids dev))).

(** A device matched by a scan: the address is persisted, then the client is
    created. *)
Definition adopt (dev : BLEDevice) : M bool :=
  _remember_device_address (Some (dev_address dev)) ;;
  c <- _create_client (dev_address dev) ;;
  modify (fun d => d<|client := Some c|>) ;;
  modify (fun d => d<|_using_cached_address := false|>) ;;
  ret true.

Definition adopt_first (matching : option BLEDevice) : M bool :=
  match matching with
  | Some dev => adopt dev
  | None => ret false
  end.

(** A library scan whose failure is logged and skipped. *)
Definition scan_step {A} (oracle : nat -> answer A) (k : A -> M bool) : M bool :=
  try_except
    (a <- ask oracle ;;
     match a with
     | Ok v => k v
     | TimedOut => raise TimeoutError
     | Failed => raise BleakError
     end)
    (fun _ => ret false).

(** Direct bind to a known address. *)
Definition bind_cached (address : option string) (clear_on_failure : bool) : M bool :=
  try_except
    (c <- _create_client (or_empty address) ;;
     modify (fun d => d<|client := Some c|>) ;;
     modify (fun d => d<|_using_cached_address := true|>) ;;
     ret true)
    (fun _ =>
       when clear_on_failure (modify (fun d => d<|_using_cached_address := false|>)) ;;
       ret false).

(** Runs the stages in order and stops at the first that binds a client. *)
Fixpoint first_found (stages : list (M bool)) : M bool :=
  match stages with
  | [] => ret false
  | stage :: rest =>
      found <- stage ;;
      if found then ret true else first_found rest
  end.

Definition _scan_for_device : M bool :=
  scan_start <- ask (time_time env) ;;
  d <- get ;;
  let target_name := lower (device_name d) in
  let try_cached := truthy (_last_device_address d) && (_skip_cached_reconnect_scans d <=? 0) in
  let defer := try_cached && platform_is_win env && (_scan_failure_streak d <? 2) in
  when (negb try_cached && truthy (_last_device_address d) && (_skip_cached_reconnect_scans d >? 0))
       (modify (fun d => d<|_skip_cached_reconnect_scans := _skip_cached_reconnect_scans d - 1|>)) ;;
  found <- first_found [
    (if try_cached && negb defer then bind_cached (_last_device_address d) true else ret false);
    scan_step (find_device_by_filter env)
      (fun seen => adopt_first (find (_is_target target_name true) seen));
    scan_step (discover env)
      (fun devices => adopt_first (find (_is_target target_name false) devices));
    scan_step (find_device_by_name env) adopt_first;
    (d' <- get ;;
     if platform_is_win env && (_scan_failure_streak d' >=? 2) then
       scan_step (refresh_scan env)
         (fun r => match fst r with
                   | [] => adopt_first (find (_is_target target_name false) (snd r))
                   | _ :: _ => adopt_first (find (_is_target target_name true) (fst r))
                   end)
     else ret false);
    (if defer then bind_cached (_last_device_address d) false else ret false)
  ] ;;
  _finish scan_start found.

(** ** Commands of the connection stages *)

(** device.py, lines 305-308 *)
Definition _send_initial_power_zero : M bool :=
  send_command env (Some (CoyoteStrengths.mk 0 0)) None.

(** device.py, lines 400-413 *)
Definition _read_battery_level : M unit :=
  try_except
    (up <- client_is_connected env ;;
     if negb up then ret tt
     else
       a <- ask (read_gatt_char env) ;;
       match a with
       | Ok [] => ret tt
       | Ok (b :: _) =>
           modify (fun d => d<|battery_level := Z_of_byte b|>) ;;
           emit (battery_level_changed (Z_of_byte b))
       | TimedOut => raise TimeoutError
       | Failed => raise BleakError
       end)
    (fun _ => ret tt).

Fixpoint write_parameters (command : list byte) (retries : nat) : M bool :=
  match retries with
  | O => ret false
  | S retries' =>
      ok <- client_write_gatt_char env command ;;
      if ok then ret true else write_parameters command retries'
  end.

(** device.py, lines 468-509 *)
Definition _send_parameters : M bool :=
  up <- client_is_connected env ;;
  if negb up then ret false
  else
    d <- get ;;
    let p := parameters d in
    command <- bytearray [
        0xBF;
        CoyoteParams.channel_a_limit p;
        CoyoteParams.channel_b_limit p;
        CoyoteParams.channel_a_freq_balance p;
        CoyoteParams.channel_b_freq_balance p;
        CoyoteParams.channel_a_intensity_balance p;
        CoyoteParams.channel_b_intensity_balance p ] ;;
    write_parameters command 3.

(** device.py, lines 511-533; the library answers [Ok false] when the
    services or the characteristic are missing. *)
Definition _subscribe_to_notifications : M bool :=
  try_except
    (up <- client_is_connected env ;;
     if negb up then ret false
     else
       a <- ask (start_notify env) ;;
       match a with
       | Ok subscribed => ret subscribed
       | TimedOut => raise TimeoutError
       | Failed => raise BleakError
       end)
    (fun _ => ret false).

(** ** [_connection_loop] (device.py, lines 92-303) *)

(** How a pass through the loop body ends: at the status signal ([Next]) or
    at a [continue]. *)
Inductive flow := Next | Continue.

(** The two [except] branches of the CONNECTING stage (lines 160-214); they
    differ in their log messages only. *)
Definition connect_failed : M unit :=
  modify (fun d => d<|_connect_failure_streak := _connect_failure_streak d + 1|>) ;;
  d <- get ;;
  when (_using_cached_address d && truthy (_last_device_address d))
    (modify (fun d => d<|_cached_connect_failure_count := _cached_connect_failure_count d + 1|>) ;;
     modify (fun d => d<|_skip_cached_reconnect_scans := Z.max (_skip_cached_reconnect_scans d) 2|>) ;;
     d <- get ;;
     when (_cached_connect_failure_count d >=? _cached_connect_failure_limit d)
          (_remember_device_address None) ;;
     modify (fun d => d<|_using_cached_address := false|>)) ;;
  d <- get ;;
  when (platform_is_win env && (_connect_failure_streak d >=? 2))
       (modify (fun d => d<|_scan_failure_streak := Z.max (_scan_failure_streak d) 2|>)) ;;
  d <- get ;;
  _recover_from_transient_failure (_connect_failure_streak d).

Definition connecting_stage : M flow :=
  try_except
    (d <- get ;;
     if negb (is_some (client d)) then
       _recover_from_transient_failure 0 ;;
       ret Continue
     else
       a <- ask (client_connect env) ;;
       match a with
       | Ok _ =>
           effect (Connect true) ;;
           modify (fun d => d<|_cached_connect_failure_count := 0|>) ;;
           modify (fun d => d<|_connect_failure_streak := 0|>) ;;
           modify (fun d => d<|_using_cached_address := false|>) ;;
           modify (fun d => d<|connection_stage := SERVICE_DISCOVERY|>) ;;
           ret Next
       | TimedOut => effect (Connect false) ;; raise TimeoutError
       | Failed => effect (Connect false) ;; raise BleakError
       end)
    (fun _ => connect_failed ;; ret Next).

Definition scanning_stage : M flow :=
  now <- ask (time_time env) ;;
  d <- get ;;
  if PrimFloat.ltb now (_next_scan_time d) then ret Continue
  else
    found <- _scan_for_device ;;
    if found then
      modify (fun d => d<|_scan_attempt_counter := 0|>) ;;
      modify (fun d => d<|_next_scan_time := 0%float|>) ;;
      modify (fun d => d<|connection_stage := CONNECTING|>) ;;
      ret Next
    else
      modify (fun d => d<|_scan_attempt_counter := _scan_attempt_counter d + 1|>) ;;
      let retry_delay := py_min 4 (py_max 2 (SCAN_RETRY_SECONDS * 0.5)%float) in
      now <- ask (time_time env) ;;
      modify (fun d => d<|_next_scan_time := (now + retry_delay)%float|>) ;;
      ret Next.

Definition service_discovery_stage : M flow :=
  try_except
    (up <- client_is_connected env ;;
     if negb up then
       _recover_from_transient_failure 0 ;;
       ret Continue
     else
       a <- ask (get_services env) ;;
       match a with
       | Ok service_count =>
           if (0 <? service_count)%nat then
             sent <- _send_initial_power_zero ;;
             if sent then
               modify (fun d => d<|connection_stage := STATUS_SUBSCRIBE|>) ;;
               ret Next
             else
               _recover_from_transient_failure 0 ;;
               ret Next
           else
             _recover_from_transient_failure 0 ;;
             ret Next
       | TimedOut => raise TimeoutError
       | Failed => raise BleakError
       end)
    (fun _ => _recover_from_transient_failure 0 ;; ret Next).

Definition status_subscribe_stage : M flow :=
  subscribed <- _subscribe_to_notifications ;;
  if subscribed then
    modify (fun d => d<|connection_stage := SYNC_PARAMETERS|>) ;;
    ret Next
  else
    _recover_from_transient_failure 0 ;;
    ret Next.

Definition sync_parameters_stage : M flow :=
  sent <- _send_parameters ;;
  if sent then
    modify (fun d => d<|_had_successful_connection := true|>) ;;
    _read_battery_level ;;
    modify (fun d => d<|connection_stage := CONNECTED|>) ;;
    ret Next
  else
    _recover_from_transient_failure 0 ;;
    ret Next.

Definition connected_stage : M flow :=
  current_time <- ask (time_time env) ;;
  d <- get ;;
  when (PrimFloat.leb 10 (current_time - _last_battery_poll d)%float)
       (_read_battery_level ;;
        modify (fun d => d<|_last_battery_poll := current_time|>)) ;;
  d <- get ;;
  when (PrimFloat.leb 5 (current_time - _last_parameter_resend d)%float)
       (_send_parameters ;;
        modify (fun d => d<|_last_parameter_resend := current_time|>)) ;;
  ret Next.

(** The body of the [while] loop up to the status signal. *)
Definition stage_step : M flow :=
  d <- get ;;
  if _force_disconnect d then
    modify (fun d => d<|_force_disconnect := false|>) ;;
    _disconnect_client ;;
    modify (fun d => d<|_scan_attempt_counter := 0|>) ;;
    modify (fun d => d<|_next_scan_time := 0%float|>) ;;
    modify (fun d => d<|_first_active_power_seen := false|>) ;;
    modify (fun d => d<|connection_stage := DISCONNECTED|>) ;;
    ret Continue
  else
    dropped <- (if ConnectionStage_eqb (connection_stage d) CONNECTED
                then up <- client_is_connected env ;; ret (negb up)
                else ret false) ;;
    if dropped then
      _disconnect_client ;;
      modify (fun d => d<|_first_active_power_seen := false|>) ;;
      modify (fun d => d<|connection_stage := DISCONNECTED|>) ;;
      ret Continue
    else
      match connection_stage d with
      | DISCONNECTED =>
          modify (fun d => d<|connection_stage := SCANNING|>) ;;
          ret Next
      | SCANNING => scanning_stage
      | CONNECTING => connecting_stage
      | SERVICE_DISCOVERY => service_discovery_stage
      | STATUS_SUBSCRIBE => status_subscribe_stage
      | SYNC_PARAMETERS => sync_parameters_stage
      | CONNECTED => connected_stage
      end.

(** One pass through the loop body; [prev_stage] is the loop's local
    variable, returned as the next pass finds it. *)
Definition loop_iteration (prev_stage : ConnectionStage) : M ConnectionStage :=
  try_except
    (f <- stage_step ;;
     match f with
     | Continue => ret prev_stage
     | Next =>
         d <- get ;;
         if negb (ConnectionStage_eqb prev_stage (connection_stage d)) then
           emit (connection_status_changed
                   (ConnectionStage_eqb (connection_stage d) CONNECTED)
                   (connection_stage d)) ;;
           ret (connection_stage d)
         else ret prev_stage
     end)
    (fun _ => _recover_from_transient_failure 0 ;; ret prev_stage).

(** [while not self._shutdown]; the result tells whether the loop ended
    within [fuel] passes. *)
Fixpoint connection_loop_from (fuel : nat) (prev_stage : ConnectionStage) : M bool :=
  match fuel with
  | O => ret false
  | S fuel' =>
      d <- get ;;
      if _shutdown d then ret true
      else
        prev_stage' <- loop_iteration prev_stage ;;
        connection_loop_from fuel' prev_stage'
  end.

Definition _connection_loop (fuel : nat) : M bool :=
  d <- get ;;
  connection_loop_from fuel (connection_stage d).

(** ** The facade (device.py, lines 368-389 and 825-837) *)

Definition start_updates (a : CoyoteAlgorithm) : M unit :=
  modify (fun d => d<|algorithm := Some a|>) ;;
  modify (fun d => d<|running := true|>).

Definition stop_updates : M unit :=
  modify (fun d => d<|running := false|>) ;;
  modify (fun d => d<|algorithm := None|>).

Definition disconnect : M unit :=
  modify (fun d => d<|_shutdown := true|>) ;;
  _disconnect_client ;;
  modify (fun d => d<|connection_stage := DISCONNECTED|>).

Definition reset_connection : M unit :=
  modify (fun d => d<|_scan_attempt_counter := 0|>) ;;
  modify (fun d => d<|_next_scan_time := 0%float|>) ;;
  modify (fun d => d<|_force_disconnect := true|>).

(** ** [update_loop] (device.py, lines 839-883) *)

Definition update_iteration (last_battery_read : float) : M float :=
  d <- get ;;
  if negb (is_some (algorithm d)) then ret last_battery_read
  else
    current_time <- ask (time_time env) ;;
    last_battery_read' <-
      (if PrimFloat.leb 5 (current_time - last_battery_read)%float
       then _read_battery_level ;; ret current_time
       else ret last_battery_read) ;;
    try_except
      (due <- ask (next_update_time env) ;;
       if PrimFloat.leb due current_time then
         pulses <- ask (generate_packet env) ;;
         match pulses with
         | Some p => send_command env None (Some p) ;; ret tt
         | None => ret tt
         end ;;
         d <- get ;;
         when (is_some (algorithm d))
              (ask (next_update_time env) ;; ask (time_time env) ;; ret tt)
       else ret tt)
      (fun _ => ret tt) ;;
    ret last_battery_read'.

(** [while self.running]; the result tells whether the loop ended within
    [fuel] passes. *)
Fixpoint update_loop_from (fuel : nat) (last_battery_read : float) : M bool :=
  match fuel with
  | O => ret false
  | S fuel' =>
      d <- get ;;
      if running d then
        last_battery_read' <- update_iteration last_battery_read ;;
        update_loop_from fuel' last_battery_read'
      else ret true
  end.

Definition update_loop (fuel : nat) : M bool :=
  last_battery_read <- ask (time_time env) ;;
  update_loop_from fuel last_battery_read.

End Driver.

(** ** [PulseGenerator.create_pulse] (pulse_generator.py, lines 85-141) *)

(** The value of a finite float as an integer: [int(x)] truncates towards
    zero, [round(x)] rounds to the nearest integer and a tie to the even one.
    Both raise on an infinity or a NaN ([None]). *)
Definition py_int (x : float) : option Z :=
  match Prim2SF x with
  | S754_zero _ => Some 0
  | S754_finite s m e =>
      let v := if 0 <=? e then Z.pos m * 2 ^ e else Z.pos m / 2 ^ (- e) in
      Some (if s then - v else v)
  | S754_infinity _ | S754_nan => None
  end.

Definition py_round (x : float) : option Z :=
  match Prim2SF x with
  | S754_zero _ => Some 0
  | S754_finite s m e =>
      let v :=
        if 0 <=? e then Z.pos m * 2 ^ e
        else
          let q := Z.pos m / 2 ^ (- e) in
          let r := Z.pos m mod 2 ^ (- e) in
          let half := 2 ^ (- e - 1) in
          if r <? half then q
          else if half <? r then q + 1
          else if Z.even q then q else q + 1 in
      Some (if s then - v else v)
  | S754_infinity _ | S754_nan => None
  end.

(** Modelled from the spec: [device/coyote/common.py] is missing; [clamp(v,
    lo, hi)] limits [v] to the interval from [lo] to [hi] (section 4.2,
    "clamp(1000/target_hz, MIN_DURATION_MS, MAX_DURATION_MS)"). *)
Definition clamp (v lo hi : float) : float := py_max lo (py_min v hi).

(** Modelled from the spec: the same [clamp] on integers (section 4.2,
    "clamp(requested_intensity, 0, 100)"). *)
Definition clamp_int (v lo hi : Z) : Z := Z.max lo (Z.min v hi).

(** [create_pulse]: [using_funscript] tells whether the channel's pulse
    frequency axis is a [WriteProtectedAxis]; [raw_value] is the axis
    interpolated at [time_s]; the frequency window is the channel's
    [minimum_frequency] and [maximum_frequency].  The result is the pulse (the
    debug record that comes with it only repeats these values), or [None] for
    the exception of [round] and [int]. *)
Definition create_pulse `{Constants} (using_funscript : bool)
    (raw_value user_freq_min user_freq_max : float) (intensity : Z)
  : option CoyotePulse.t :=
  let requested_frequency :=
    (if using_funscript then
       let normalized := raw_value / 100 in
       user_freq_min + (normalized * (user_freq_max - user_freq_min))
     else clamp raw_value user_freq_min user_freq_max)%float in
  let requested_frequency := py_max 1 requested_frequency in
  let base_duration := (1000 / requested_frequency)%float in
  let base_duration :=
    clamp base_duration (float_of_int MIN_PULSE_DURATION_MS)
                        (float_of_int MAX_PULSE_DURATION_MS) in
  match py_round (1000 / base_duration)%float, py_int base_duration with
  | Some rounded, Some duration =>
      let display_frequency := Z.max 1 rounded in
      let final_intensity := clamp_int intensity 0 100 in
      Some (CoyotePulse.mk display_frequency final_intensity duration)
  | _, _ => None
  end.

(** ** The deprecated helpers of [PulseGenerator] (pulse_generator.py,
    lines 173-186) *)

(** The part of a [PulseGenerator] its methods change. *)
Record PulseGenerator := {
  _phase : float;
  _residual_ms : float
}.

(** [_duration_limits]: [None] stands for the exception of [round] (or of
    the division) on a zero, infinite or NaN frequency. *)
Definition _duration_limits `{Constants} (min_freq max_freq : float) : option (Z * Z) :=
  match py_round (1000 / max_freq)%float, py_round (1000 / min_freq)%float with
  | Some shortest, Some longest =>
      let minimum := Z.max MIN_PULSE_DURATION_MS shortest in
      let maximum := Z.min MAX_PULSE_DURATION_MS longest in
      if minimum >? maximum
      then Some (MIN_PULSE_DURATION_MS, MAX_PULSE_DURATION_MS)
      else Some (minimum, maximum)
  | _, _ => None
  end.

(** [_clamp_duration]: the clamped duration, whether it was clamped, and the
    generator, whose residual is reset when it was. *)
Definition _clamp_duration (g : PulseGenerator) (duration_ms : Z) (limits : Z * Z)
  : Z * bool * PulseGenerator :=
  let (low, high) := limits in
  let clamped_duration := clamp_int duration_ms low high in
  let clamped := negb (clamped_duration =? duration_ms) in
  (clamped_duration, clamped, if clamped then g<|_residual_ms := 0%float|> else g).

(** ** [_handle_battery_notification] (device.py, lines 391-398) *)

Definition _handle_battery_notification (data : list byte) : M unit :=
  level <- index data 0 ;;
  modify (fun d => d<|battery_level := level|>) ;;
  emit (battery_level_changed level).

(** ** [CoyoteDevice.__init__] (device.py, lines 45-78) *)

(** The white space [str.strip()] removes, among the ASCII characters: the
    blank, the controls 0x09-0x0D and the separators 0x1C-0x1F. *)
Definition is_space (c : Ascii.ascii) : bool :=
  let n := Ascii.nat_of_ascii c in
  ((n =? 32) || ((9 <=? n) && (n <=? 13)) || ((28 <=? n) && (n <=? 31)))%nat.

Fixpoint lstrip (s : string) : string :=
  match s with
  | String c s' => if is_space c then lstrip s' else s
  | EmptyString => EmptyString
  end.

Fixpoint rstrip (s : string) : string :=
  match s with
  | String c s' =>
      match rstrip s' with
      | EmptyString => if is_space c then EmptyString else String c EmptyString
      | rest => String c rest
      end
  | EmptyString => EmptyString
  end.

Definition strip (s : string) : string := rstrip (lstrip s).

(** The object as the constructor leaves it; [persisted_address] is what the
    settings store holds. *)
Definition init (device_name : string) (parameters : CoyoteParams.t)
    (persisted_address : string) : CoyoteDevice := {|
  device_name := device_name;
  client := None;
  algorithm := None;
  running := false;
  connection_stage := DISCONNECTED;
  strengths := CoyoteStrengths.mk 0 0;
  battery_level := 100;
  parameters := parameters;
  sequence_number := 1;
  _had_successful_connection := false;
  _shutdown := false;
  _force_disconnect := false;
  _last_device_address :=
    if truthy (Some (strip persisted_address)) then Some (strip persisted_address) else None;
  _using_cached_address := false;
  _cached_connect_failure_count := 0;
  _cached_connect_failure_limit := 3;
  _skip_cached_reconnect_scans := 0;
  _next_scan_time := 0%float;
  _scan_attempt_counter := 0;
  _last_scan_elapsed := 0%float;
  _scan_failure_streak := 0;
  _connect_failure_streak := 0;
  _logged_first_send_payload := false;
  _first_active_power_seen := false;
  _last_battery_poll := 0%float;
  _last_parameter_resend := 0%float
|}.

Definition init_world (device_name : string) (parameters : CoyoteParams.t)
    (persisted_address : string) : World := {|
  self := init device_name parameters persisted_address;
  coyote_last_device_address := persisted_address;
  trace := [];
  calls := 0
|}.

(** ** Sample values

    A valuation of the parameters and two environments, on which the model is
    evaluated; the theorems hold for every valuation that meets their
    hypotheses. *)

Definition sample_constants : Constants := {|
  CMD_POWER_UPDATE := 0xB1;
  CMD_ACK := 0xB2;
  CMD_ACTIVE_POWER := 0x53;
  INTERP_ABSOLUTE_SET := 3;
  INTERP_NO_CHANGE := 0;
  B0_NO_PULSES_PAD_BYTES := 16;
  PULSES_PER_PACKET := 4;
  SCAN_RETRY_SECONDS := 5%float;
  MAIN_SERVICE_UUID := "0000180c-0000-1000-8000-00805f9b34fb";
  MIN_PULSE_DURATION_MS := 5;
  MAX_PULSE_DURATION_MS := 240
|}.

(** A link on which every call succeeds at once, off Windows, at a fixed
    clock. *)
Definition good_link : Env := {|
  platform_is_win := false;
  time_time := fun _ => 1000%float;
  is_connected := fun _ => true;
  write_gatt_char := fun _ => true;
  client_connect := fun _ => Ok tt;
  client_disconnect := fun _ => Ok tt;
  get_services := fun _ => Ok 1%nat;
  start_notify := fun _ => Ok true;
  read_gatt_char := fun _ => Ok [x64];
  create_client_ok := fun _ => true;
  find_device_by_filter := fun _ => Ok [];
  discover := fun _ => Ok [];
  find_device_by_name := fun _ => Ok None;
  backoff_scan_ok := fun _ => true;
  refresh_scan := fun _ => Ok ([], []);
  next_update_time := fun _ => 0%float;
  generate_packet := fun _ => None
|}.

(** The same link with every connection attempt and every write failing. *)
Definition bad_link : Env :=
  good_link<|is_connected := fun _ => false|>
           <|write_gatt_char := fun _ => false|>
           <|client_connect := fun _ => Failed|>.

Definition sample_params : CoyoteParams.t := CoyoteParams.mk 200 200 160 160 0 0.

(** A fresh object, and one that holds a client for the address
    ["C1:A9:D8:62:9A:01"]. *)
Definition fresh : World := init_world "47L121000" sample_params EmptyString.

Definition with_client : World :=
  fresh<|self ::= fun d => d<|client := Some {| client_address := "C1:A9:D8:62:9A:01" |}|>|>.

(** A link on which nothing is found and nothing connects, with a clock that
    advances by one second at every library call; an object that starts with
    a persisted address; and the world after [n] passes of its connection
    loop on that link. *)
Definition dead_link : Env :=
  bad_link<|time_time := fun n => float_of_int (Z.of_nat n)|>.

Definition remembering : World :=
  init_world "47L121000" sample_params "C1:A9:D8:62:9A:01".

Definition after_passes (n : nat) : World :=
  snd (@connection_loop_from sample_constants dead_link n DISCONNECTED remembering).

(** ** Vocabulary of the statements *)

(** The answer [self.client and self.client.is_connected] would get in the
    world [w]. *)
Definition link_up (env : Env) (w : World) : bool :=
  match client (self w) with
  | Some _ => is_connected env (calls w)
  | None => false
  end.

(** What a computation started in [w] and ended in [w'] has added to the
    trace. *)
Definition new_effects (w w' : World) : list Effect :=
  skipn (List.length (trace w)) (trace w').

Definition frames_written (l : list Effect) : list (list byte) :=
  flat_map (fun e => match e with WriteGatt frame _ => [frame] | _ => [] end) l.

Definition written_ok (l : list Effect) : bool :=
  existsb (fun e => match e with WriteGatt _ true => true | _ => false end) l.

Definition settings_writes (l : list Effect) : list string :=
  flat_map (fun e => match e with SettingsSet a => [a] | _ => [] end) l.

(** The data-model bounds of section 3. *)
Definition strengths_in_range (s : CoyoteStrengths.t) : Prop :=
  0 <= CoyoteStrengths.channel_a s <= 200 /\ 0 <= CoyoteStrengths.channel_b s <= 200.

Definition has_invalid_intensity (p : CoyotePulses.t) : bool :=
  existsb invalid_intensity (CoyotePulses.channel_a p)
  || existsb invalid_intensity (CoyotePulses.channel_b p).

(** The four header integers and the pulse section of a command frame. *)
Definition header_ints `{Constants} (seq : Z) (s : option CoyoteStrengths.t) : list Z :=
  [ CMD_B0;
    control_byte seq s;
    match s with Some s => CoyoteStrengths.channel_a s | None => 0 end;
    match s with Some s => CoyoteStrengths.channel_b s | None => 0 end ].

Definition pulse_ints (p : CoyotePulses.t) : list Z :=
  map CoyotePulse.duration (CoyotePulses.channel_a p)
  ++ map CoyotePulse.intensity (CoyotePulses.channel_a p)
  ++ map CoyotePulse.duration (CoyotePulses.channel_b p)
  ++ map CoyotePulse.intensity (CoyotePulses.channel_b p).

(** The interpretation mode of a call, the same for both channels. *)
Definition interp_of `{Constants} (s : option CoyoteStrengths.t) : Z :=
  if is_some s then INTERP_ABSOLUTE_SET else INTERP_NO_CHANGE.

(** [n] commands with the same strengths, one after the other. *)
Fixpoint send_strengths_repeatedly `{Constants} (env : Env) (s : CoyoteStrengths.t)
    (n : nat) : M unit :=
  match n with
  | O => ret tt
  | S n' => send_command env (Some s) None ;; send_strengths_repeatedly env s n'
  end.

(** What the claims on the cached address are about: the address the object
    holds, the cache-failure counter and its limit, the persisted address and
    the writes made to the settings store so far. *)
Definition cache_state (w : World)
  : option string * Z * Z * string * list string :=
  (_last_device_address (self w),
   _cached_connect_failure_count (self w),
   _cached_connect_failure_limit (self w),
   coyote_last_device_address w,
   settings_writes (trace w)).

Definition same_cache (w0 w : World) : Prop := cache_state w = cache_state w0.

(** A pass through CONNECTING that finds a client bound to the cached
    address and whose [connect()] times out or fails. *)
Definition cached_attempt_fails (env : Env) (w : World) : Prop :=
  client (self w) <> None
  /\ _using_cached_address (self w) = true
  /\ truthy (_last_device_address (self w)) = true
  /\ client_connect env (calls w) <> Ok tt.

(** The cached address has been dropped, and the settings store has seen
    the writes [k] and no other. *)
Definition cleared (k : list string) (w : World) : Prop :=
  _last_device_address (self w) = None /\ settings_writes (trace w) = k.

(** The seven integers of the parameter frame. *)
Definition parameter_ints (p : CoyoteParams.t) : list Z :=
  [ 0xBF;
    CoyoteParams.channel_a_limit p;
    CoyoteParams.channel_b_limit p;
    CoyoteParams.channel_a_freq_balance p;
    CoyoteParams.channel_b_freq_balance p;
    CoyoteParams.channel_a_intensity_balance p;
    CoyoteParams.channel_b_intensity_balance p ].

(** The write attempts among some effects, each with its frame and result. *)
Definition write_attempts_of (l : list Effect) : list (list byte * bool) :=
  flat_map (fun e => match e with WriteGatt frame ok => [(frame, ok)] | _ => [] end) l.

(** The signals among some effects. *)
Definition signals_of (l : list Effect) : list Signal :=
  flat_map (fun e => match e with Emit s => [s] | _ => [] end) l.

(** The edges of the lifecycle: a pass leaves the stage where it is, moves it
    to the next stage, or falls back to SCANNING or DISCONNECTED. *)
Definition next_stage (s : ConnectionStage) : ConnectionStage :=
  match s with
  | DISCONNECTED => SCANNING
  | SCANNING => CONNECTING
  | CONNECTING => SERVICE_DISCOVERY
  | SERVICE_DISCOVERY => STATUS_SUBSCRIBE
  | STATUS_SUBSCRIBE => SYNC_PARAMETERS
  | SYNC_PARAMETERS => CONNECTED
  | CONNECTED => CONNECTED
  end.

Definition lifecycle_edge (s s' : ConnectionStage) : Prop :=
  s' = s \/ s' = next_stage s \/ s' = SCANNING \/ s' = DISCONNECTED.

(** The ranges the counters of the object stay in. *)
Definition counters_in_range (w : World) : Prop :=
  0 <= sequence_number (self w) <= 15
  /\ 0 <= _skip_cached_reconnect_scans (self w)
  /\ 0 <= _scan_attempt_counter (self w)
  /\ 0 <= _scan_failure_streak (self w)
  /\ 0 <= _connect_failure_streak (self w).

(** What a stage of the scan does to the client and to the failure streak. *)
Definition scan_stage_outcome (w : World) (o : outcome bool) (w' : World) : Prop :=
  exists found,
    o = Ret found
    /\ (if found then is_some (client (self w')) = true
        else client (self w') = client (self w))
    /\ _scan_failure_streak (self w') = _scan_failure_streak (self w)
    /\ connection_stage (self w') = connection_stage (self w)
    /\ _scan_attempt_counter (self w') = _scan_attempt_counter (self w)
    /\ _next_scan_time (self w') = _next_scan_time (self w).

(** What the update loop leaves alone: the strengths, the stage, the client,
    the parameters and the settings. *)
Definition outside_update_loop (w0 w : World) : Prop :=
  strengths (self w) = strengths (self w0)
  /\ connection_stage (self w) = connection_stage (self w0)
  /\ client (self w) = client (self w0)
  /\ parameters (self w) = parameters (self w0)
  /\ settings_writes (trace w) = settings_writes (trace w0).

(** Beyond SCANNING the scan schedule is clear: the retry counter and the
    next-scan time are 0. *)
Definition schedule_clear_beyond_scanning (w : World) : Prop :=
  connection_stage (self w) <> DISCONNECTED ->
  connection_stage (self w) <> SCANNING ->
  _scan_attempt_counter (self w) = 0 /\ _next_scan_time (self w) = 0%float.

(** The scan schedule is clear. *)
Definition schedule_clear (w : World) : Prop :=
  _scan_attempt_counter (self w) = 0 /\ _next_scan_time (self w) = 0%float.

(** The update loop is not allowed to run. *)
Definition stopped (w : World) : Prop := running (self w) = false.

(** [post m w Q]: the outcome and the final world of [m] started in [w]
    satisfy [Q]. *)
Definition post {A} (m : M A) (w : World) (Q : outcome A -> World -> Prop) : Prop :=
  Q (fst (m w)) (snd (m w)).

(** [preserves P m]: [m] keeps the invariant [P], however it ends. *)
Definition preserves {A} (P : World -> Prop) (m : M A) : Prop :=
  forall w, P w -> P (snd (m w)).

(** * Properties *)

(** ** Rules for running a computation *)

Lemma post_conseq {A} (m : M A) w (Q Q' : outcome A -> World -> Prop) :
  post m w Q -> (forall o w', Q o w' -> Q' o w') -> post m w Q'.
Proof. unfold post; auto. Qed.

Lemma post_bind {A B} (m : M A) (k : A -> M B) w Q :
  post m w (fun o w' => match o with
                        | Ret a => post (k a) w' Q
                        | Raise e => Q (Raise e) w'
                        end) ->
  post (bind m k) w Q.
Proof. unfold post, bind. destruct (m w) as [[a|e] w']; auto. Qed.

Lemma post_try_except {A} (m : M A) h w Q :
  post m w (fun o w' => match o with
                        | Ret a => Q (Ret a) w'
                        | Raise e => post (h e) w' Q
                        end) ->
  post (try_except m h) w Q.
Proof. unfold post, try_except. destruct (m w) as [[a|e] w']; auto. Qed.

Lemma post_ret {A} (a : A) w Q : Q (Ret a) w -> post (ret a) w Q.
Proof. auto. Qed.

Lemma post_raise {A} e w (Q : outcome A -> World -> Prop) :
  Q (Raise e) w -> post (raise e) w Q.
Proof. auto. Qed.

Lemma post_get w Q : Q (Ret (self w)) w -> post get w Q.
Proof. auto. Qed.

Lemma post_modify f w Q : Q (Ret tt) (w<|self ::= f|>) -> post (modify f) w Q.
Proof. auto. Qed.

Lemma post_effect e w Q :
  Q (Ret tt) (w<|trace ::= fun t => t ++ [e]|>) -> post (effect e) w Q.
Proof. auto. Qed.

Lemma post_ask {A} (o : nat -> A) w Q :
  Q (Ret (o (calls w))) (w<|calls ::= S|>) -> post (ask o) w Q.
Proof. auto. Qed.

Lemma post_settings_set a w Q :
  Q (Ret tt) (w<|coyote_last_device_address := a|><|trace ::= fun t => t ++ [SettingsSet a]|>) ->
  post (settings_set a) w Q.
Proof. auto. Qed.

Lemma post_preserved {A} (P : World -> Prop) (m : M A) w :
  preserves P m -> P w -> post m w (fun _ w' => P w').
Proof. unfold post, preserves; auto. Qed.

Ltac head_of t :=
  lazymatch t with
  | ?f _ => head_of f
  | _ => t
  end.

(** One step of symbolic execution: a rule for the head of the computation,
    a case split on what it branches on, or the unfolding of a definition. *)
Ltac wp_step :=
  lazymatch goal with
  | |- post (bind _ _) _ _ => apply post_bind
  | |- post (try_except _ _) _ _ => apply post_try_except
  | |- post (ret _) _ _ => apply post_ret
  | |- post (raise _) _ _ => apply post_raise
  | |- post get _ _ => apply post_get
  | |- post (modify _) _ _ => apply post_modify
  | |- post (effect _) _ _ => apply post_effect
  | |- post (ask _) _ _ => apply post_ask
  | |- post (settings_set _) _ _ => apply post_settings_set
  | |- post (if ?b then _ else _) _ _ => destruct b eqn:?
  | |- post (match ?x with _ => _ end) _ _ => destruct x eqn:?
  | |- post (write_attempts _ _ _) _ _ => cbn [write_attempts]
  | |- post ?m _ _ => let h := head_of m in unfold h
  end.
Ltac wp := repeat (wp_step; cbv beta iota).

(** Closes or simplifies what is left at the end of a path. *)
Ltac leaf :=
  unfold link_up in *; cbn in *;
  repeat match goal with
         | H : ?x = _ |- context [?x] => rewrite H
         | H : negb _ = true |- _ => apply negb_true_iff in H
         | H : negb _ = false |- _ => apply negb_false_iff in H
         end;
  cbn in *; try reflexivity; try congruence.

Lemma new_effects_app w w' l : trace w' = trace w ++ l -> new_effects w w' = l.
Proof.
  unfold new_effects. intros ->.
  rewrite skipn_app, skipn_all, Nat.sub_diag. reflexivity.
Qed.

(** Computes [new_effects w w'] when [w'] is [w] after some updates. *)
Ltac added :=
  erewrite new_effects_app
    by (cbn [self trace calls coyote_last_device_address set];
        rewrite <- ?app_assoc;
        first [ reflexivity | symmetry; apply app_nil_r ]).

Lemma Z_of_byte_range b : 0 <= Z_of_byte b <= 255.
Proof. destruct b; vm_compute; split; discriminate. Qed.

(** ** Status notifications *)

Section Notifications.
Context `{Constants}.

(** The four reads come before the dispatch on the command id: a frame of
    one to three bytes ends in the [IndexError] of the first read past its
    end, whatever its first byte, and nothing has been changed by then. *)
Lemma short_frame_raises data w :
  data <> [] -> (List.length data < 4)%nat ->
  _handle_status_notification data w = (Raise IndexError, w).
Proof.
  intros Hne Hlen.
  destruct data as [|b0 [|b1 [|b2 [|b3 rest]]]]; cbn in Hlen;
    try congruence; try lia; reflexivity.
Qed.

(** A frame of four bytes or more is always handled to the end. *)
Lemma long_frame_returns data w :
  (4 <= List.length data)%nat ->
  exists w', _handle_status_notification data w = (Ret tt, w').
Proof.
  intros Hlen.
  destruct data as [|b0 [|b1 [|b2 [|b3 rest]]]]; cbn in Hlen; try lia.
  unfold _handle_status_notification.
  cbn [index nth_error bind ret].
  destruct (Z_of_byte b0 =? CMD_POWER_UPDATE); [eexists; reflexivity|].
  destruct (Z_of_byte b0 =? CMD_ACK); [eexists; reflexivity|].
  destruct (Z_of_byte b0 =? CMD_ACTIVE_POWER); [|eexists; reflexivity].
  cbn. destruct (_first_active_power_seen (self w)); eexists; reflexivity.
Qed.

(** What a notification leaves in [self.strengths]: bytes 2 and 3 of a
    power update, and the old value otherwise. *)
Lemma notification_strengths data w :
  strengths (self (snd (_handle_status_notification data w))) = strengths (self w)
  \/ exists b0 b1 b2 b3 rest,
       data = b0 :: b1 :: b2 :: b3 :: rest
       /\ strengths (self (snd (_handle_status_notification data w)))
          = CoyoteStrengths.mk (Z_of_byte b2) (Z_of_byte b3).
Proof.
  destruct data as [|b0 [|b1 [|b2 [|b3 rest]]]]; try (left; reflexivity).
  unfold _handle_status_notification.
  cbn [index nth_error bind ret].
  destruct (Z_of_byte b0 =? CMD_POWER_UPDATE).
  - right. exists b0, b1, b2, b3, rest. split; reflexivity.
  - left. destruct (Z_of_byte b0 =? CMD_ACK); [reflexivity|].
    destruct (Z_of_byte b0 =? CMD_ACTIVE_POWER); [|reflexivity].
    cbn. destruct (_first_active_power_seen (self w)); reflexivity.
Qed.

End Notifications.

(** C1 (the code departs from it): a non-empty status notification shorter
    than four bytes is not dropped as a malformed frame.  The handler reads
    bytes 1, 2 and 3 before it looks at the command id or at the length, so it
    raises [IndexError]; the device state, and with it the connection stage,
    is as before. *)
Theorem short_status_notification_raises `{Constants} (data : list byte) (w : World) :
  data <> [] -> (List.length data < 4)%nat ->
  fst (_handle_status_notification data w) = Raise IndexError
  /\ connection_stage (self (snd (_handle_status_notification data w)))
     = connection_stage (self w).
Proof.
  intros Hne Hlen. rewrite (short_frame_raises data w Hne Hlen). split; reflexivity.
Qed.

Lemma short_status_notification_raises_witness :
  [x53; x00; x00] <> [] /\ (List.length [x53; x00; x00] < 4)%nat
  /\ fst (@_handle_status_notification sample_constants [x53; x00; x00] fresh)
     = Raise IndexError.
Proof.
  split; [discriminate|]. split; [simpl; lia|].
  apply (@short_status_notification_raises sample_constants [x53; x00; x00] fresh);
    [discriminate | simpl; lia].
Defined.

(** ** [send_command] *)

Section SendCommand.
Context `{Constants}.
Variable env : Env.

(** [self.strengths] after a call: untouched on a live link, the caller's
    values otherwise. *)
Lemma send_command_strengths s p w :
  post (send_command env s p) w (fun _ w' =>
    strengths (self w') =
      if link_up env w then strengths (self w)
      else match s with
           | Some s' => CoyoteStrengths.mk (CoyoteStrengths.channel_a s')
                                           (CoyoteStrengths.channel_b s')
           | None => strengths (self w)
           end).
Proof. wp; leaf. Qed.

(** The sequence number after a call, by the value returned. *)
Lemma send_command_sequence_number s p w :
  post (send_command env s p) w (fun o w' =>
    sequence_number (self w') =
      match o with
      | Ret true => (sequence_number (self w) + 1) mod SEQUENCE_MODULO
      | _ => sequence_number (self w)
      end).
Proof. wp; leaf. Qed.

(** The call returns [True] exactly when one of its writes went through. *)
Lemma send_command_true_iff_written s p w :
  post (send_command env s p) w (fun o w' =>
    o = Ret true <-> written_ok (new_effects w w') = true).
Proof.
  wp; cbn [self trace set];
    added;
    cbn; split; congruence.
Qed.

(** The signal comes first, before the link is asked anything. *)
Lemma send_command_emits_first s p w :
  post (send_command env s (Some p)) w (fun _ w' =>
    exists rest, new_effects w w' = Emit (pulse_sent p) :: rest).
Proof.
  wp; cbn [self trace set];
    added;
    cbn; eauto.
Qed.

End SendCommand.

(** C7 (as the code has it): neither write checks its values.  Started
    within 0..200, the strengths stay within 0..200 through a notification
    whose bytes 2 and 3 are at most 200 and through a [send_command] whose
    strengths are within 0..200; through any notification they stay within
    0..255. *)
Theorem strengths_stay_in_range_for_in_range_values `{Constants}
    (env : Env) (w : World) :
  strengths_in_range (strengths (self w)) ->
  (forall data,
      (forall b, nth_error data 2 = Some b -> Z_of_byte b <= 200) ->
      (forall b, nth_error data 3 = Some b -> Z_of_byte b <= 200) ->
      strengths_in_range (strengths (self (snd (_handle_status_notification data w)))))
  /\ (forall s p,
        (forall s', s = Some s' -> strengths_in_range s') ->
        strengths_in_range (strengths (self (snd (send_command env s p w)))))
  /\ (forall data,
        let s' := strengths (self (snd (_handle_status_notification data w))) in
        0 <= CoyoteStrengths.channel_a s' <= 255
        /\ 0 <= CoyoteStrengths.channel_b s' <= 255).
Proof.
  intros [Ha Hb]. split; [|split].
  - intros data H2 H3.
    destruct (notification_strengths data w)
      as [-> | (b0 & b1 & b2 & b3 & rest & -> & ->)]; [split; assumption|].
    pose proof (Z_of_byte_range b2). pose proof (Z_of_byte_range b3).
    specialize (H2 b2 eq_refl). specialize (H3 b3 eq_refl).
    split; cbn; lia.
  - intros s p Hs.
    rewrite (send_command_strengths env s p w).
    destruct (link_up env w); [split; assumption|].
    destruct s as [s'|]; [|split; assumption].
    destruct (Hs s' eq_refl) as [Ha' Hb']. split; cbn; lia.
  - intros data s'; subst s'.
    destruct (notification_strengths data w)
      as [-> | (b0 & b1 & b2 & b3 & rest & -> & ->)]; [lia|].
    pose proof (Z_of_byte_range b2). pose proof (Z_of_byte_range b3).
    cbn; lia.
Qed.

Lemma strengths_stay_in_range_witness :
  strengths_in_range (strengths (self fresh))
  /\ strengths_in_range
       (strengths (self (snd (@_handle_status_notification sample_constants
                                [xb1; x01; x64; xc8] fresh)))).
Proof.
  assert (Hfresh : strengths_in_range (strengths (self fresh)))
    by (vm_compute; repeat split; discriminate).
  split; [exact Hfresh|].
  apply (@strengths_stay_in_range_for_in_range_values sample_constants good_link fresh Hfresh);
    cbn; intros b [= <-]; vm_compute; discriminate.
Defined.

(** C7 (as stated, refuted): a power update with byte 2 equal to 255 and an
    offline [send_command] with strength 250 both leave channel A above
    200. *)
Lemma unchecked_strengths_leave_the_range :
  strengths_in_range (strengths (self fresh))
  /\ CoyoteStrengths.channel_a
       (strengths (self (snd (@_handle_status_notification sample_constants
                                [xb1; x01; xff; x00] fresh)))) = 255
  /\ CoyoteStrengths.channel_a
       (strengths (self (snd (@send_command sample_constants bad_link
                                (Some (CoyoteStrengths.mk 250 0)) None fresh)))) = 250.
Proof. vm_compute. repeat split; discriminate. Qed.

(** C10: whenever a pulses packet is supplied, the first effect of
    [send_command] is the [pulse_sent] signal carrying it: it precedes the
    connectivity query, the validation and every write, and it is there
    whether the call returns or raises. *)
Theorem pulse_sent_is_emitted_first `{Constants}
    (env : Env) (s : option CoyoteStrengths.t) (p : CoyotePulses.t) (w : World) :
  exists rest,
    new_effects w (snd (send_command env s (Some p) w)) = Emit (pulse_sent p) :: rest.
Proof. exact (send_command_emits_first env s p w). Qed.

(** C2 (as the code has it): the sequence number stays within 0..15; a call
    to [send_command] one of whose writes goes through leaves it advanced by
    one modulo 16, with or without strengths in the command, and a call none
    of whose writes goes through leaves it as it was. *)
Theorem sequence_number_advances_on_every_successful_write `{Constants}
    (env : Env) (s : option CoyoteStrengths.t) (p : option CoyotePulses.t) (w : World) :
  0 <= sequence_number (self w) <= 15 ->
  let w' := snd (send_command env s p w) in
  0 <= sequence_number (self w') <= 15
  /\ (written_ok (new_effects w w') = true ->
      sequence_number (self w') = (sequence_number (self w) + 1) mod 16)
  /\ (written_ok (new_effects w w') = false ->
      sequence_number (self w') = sequence_number (self w)).
Proof.
  intros Hseq w'. subst w'.
  pose proof (send_command_sequence_number env s p w) as Hnext.
  pose proof (send_command_true_iff_written env s p w) as Hiff.
  unfold post in Hnext, Hiff.
  destruct (fst (send_command env s p w)) as [[|]|e].
  - assert (Hw : written_ok (new_effects w (snd (send_command env s p w))) = true)
      by (apply Hiff; reflexivity).
    rewrite Hnext. unfold SEQUENCE_MODULO. repeat split.
    + apply Z.mod_pos_bound; lia.
    + pose proof (Z.mod_pos_bound (sequence_number (self w) + 1) 16); lia.
    + rewrite Hw; discriminate.
  - rewrite Hnext. repeat split; try lia.
    intros Hw. apply Hiff in Hw. discriminate.
  - rewrite Hnext. repeat split; try lia.
    intros Hw. apply Hiff in Hw. discriminate.
Qed.

Lemma sequence_number_advances_witness :
  0 <= sequence_number (self with_client) <= 15
  /\ 0 <= sequence_number
            (self (snd (@send_command sample_constants good_link
                          (Some (CoyoteStrengths.mk 10 20)) None with_client))) <= 15.
Proof.
  assert (Hseq : 0 <= sequence_number (self with_client) <= 15) by (vm_compute; split; discriminate).
  split; [exact Hseq|].
  apply (@sequence_number_advances_on_every_successful_write sample_constants good_link
           (Some (CoyoteStrengths.mk 10 20)) None with_client Hseq).
Defined.

(** C2 (as stated, refuted): a pulses-only command that is written at the
    first attempt advances the sequence number from 1 to 2. *)
Lemma pulses_only_write_advances_the_sequence_number :
  let r := @send_command sample_constants good_link None
             (Some (@zero_pulses sample_constants)) with_client in
  fst r = Ret true
  /\ sequence_number (self with_client) = 1
  /\ sequence_number (self (snd r)) = 2.
Proof. vm_compute. repeat split. Qed.

(** ** The control byte *)

Section ControlByte.
Context `{Constants}.
Hypothesis absolute_set_2_bits : 0 <= INTERP_ABSOLUTE_SET < 4.
Hypothesis no_change_2_bits : 0 <= INTERP_NO_CHANGE < 4.

Lemma interp_of_2_bits s : 0 <= interp_of s < 4.
Proof. unfold interp_of; destruct (is_some s); assumption. Qed.

Lemma low_bits_of_shifted x n k :
  0 <= n -> 0 <= k < 2 ^ n -> Z.land (Z.shiftl x n) k = 0.
Proof.
  intros Hn Hk. apply Z.bits_inj'. intros i Hi.
  rewrite Z.land_spec, Z.bits_0.
  destruct (Z.ltb_spec i n).
  - rewrite Z.shiftl_spec_low by assumption. reflexivity.
  - assert (Hhigh : Z.testbit k i = false).
    { destruct (Z.eq_dec k 0) as [->|Hne]; [apply Z.bits_0|].
      apply Z.bits_above_log2; [lia|].
      apply Z.log2_lt_pow2; [lia|].
      apply Z.lt_le_trans with (2 ^ n); [lia|].
      apply Z.pow_le_mono_r; lia. }
    rewrite Hhigh, andb_false_r. reflexivity.
Qed.

(** The upper nibble is the sequence number for a command with strengths
    and 0 for a pulses-only command. *)
Lemma control_byte_upper_nibble seq s :
  Z.shiftr (control_byte seq s) 4 = if is_some s then seq else 0.
Proof.
  pose proof (interp_of_2_bits s) as Hi.
  unfold control_byte. fold (interp_of s).
  rewrite !Z.shiftr_lor, Z.shiftr_shiftl_l, Z.sub_diag, Z.shiftl_0_r by lia.
  rewrite Z.shiftr_shiftl_r by lia.
  rewrite !(Z.shiftr_div_pow2 (interp_of s)) by lia.
  rewrite !Z.div_small by (cbn; lia).
  rewrite !Z.lor_0_r. reflexivity.
Qed.

(** Bits 3..2 and bits 1..0 both hold the one interpretation mode of the
    call. *)
Lemma control_byte_modes seq s :
  Z.land (Z.shiftr (control_byte seq s) 2) 3 = interp_of s
  /\ Z.land (control_byte seq s) 3 = interp_of s.
Proof.
  pose proof (interp_of_2_bits s) as Hi.
  unfold control_byte. fold (interp_of s).
  set (x := if is_some s then seq else 0).
  assert (Hlow : Z.land (interp_of s) 3 = interp_of s).
  { assert (interp_of s = 0 \/ interp_of s = 1 \/ interp_of s = 2 \/ interp_of s = 3)
      as [-> | [-> | [-> | ->]]] by lia; reflexivity. }
  split.
  - rewrite !Z.shiftr_lor, Z.shiftr_shiftl_l by lia.
    rewrite Z.shiftr_shiftl_l, Z.shiftl_0_r by lia.
    rewrite (Z.shiftr_div_pow2 (interp_of s)), Z.div_small by (cbn; lia).
    rewrite Z.lor_0_r, Z.land_lor_distr_l.
    change (4 - 2) with 2.
    rewrite low_bits_of_shifted by (cbn; lia).
    rewrite Z.lor_0_l. exact Hlow.
  - rewrite !Z.land_lor_distr_l.
    rewrite !low_bits_of_shifted by (cbn; lia).
    rewrite !Z.lor_0_l. exact Hlow.
Qed.

End ControlByte.

(** From the initial sequence number 1, fifteen commands written at the
    first attempt bring the counter to 0, and the sixteenth command, which
    carries strengths 10 and 20, goes out as B0 0F 0A 14 and the zero pad:
    its upper nibble is 0. *)
Example sixteenth_strengths_command :
  let w15 := snd (@send_strengths_repeatedly sample_constants good_link
                    (CoyoteStrengths.mk 10 20) 15 with_client) in
  sequence_number (self with_client) = 1
  /\ sequence_number (self w15) = 0
  /\ frames_written
       (new_effects w15
          (snd (@send_command sample_constants good_link
                  (Some (CoyoteStrengths.mk 10 20)) None w15)))
     = [[xb0; x0f; x0a; x14] ++ repeat x00 16].
Proof. vm_compute. repeat split. Qed.

(** C3 (the code departs from it): the upper nibble of a command with
    strengths is the sequence number, but the sequence number is not always
    nonzero.  The successful write made at sequence number 15 wraps the
    counter to 0, and the control byte of the next command with strengths has
    upper nibble 0, the value that asks for no acknowledgement. *)
Theorem strengths_command_after_wrap_has_zero_nibble `{Constants}
    (env : Env) (w : World) (s s' : CoyoteStrengths.t) :
  0 <= INTERP_ABSOLUTE_SET < 4 ->
  sequence_number (self w) = 15 ->
  fst (send_command env (Some s) None w) = Ret true ->
  let w' := snd (send_command env (Some s) None w) in
  sequence_number (self w') = 0
  /\ Z.shiftr (control_byte (sequence_number (self w')) (Some s')) 4 = 0.
Proof.
  intros Habs Hseq Hret w'. subst w'.
  pose proof (send_command_sequence_number env (Some s) None w) as Hnext.
  unfold post in Hnext. rewrite Hret, Hseq in Hnext.
  rewrite Hnext. split; [reflexivity|].
  unfold control_byte. cbn [is_some].
  change ((15 + 1) mod SEQUENCE_MODULO) with 0.
  rewrite Z.shiftl_0_l, Z.lor_0_l, Z.shiftr_lor, Z.shiftr_shiftl_r by lia.
  rewrite !(Z.shiftr_div_pow2 INTERP_ABSOLUTE_SET) by lia.
  rewrite !Z.div_small by (cbn; lia).
  reflexivity.
Qed.

Lemma strengths_command_after_wrap_witness :
  let w := with_client<|self ::= fun d => d<|sequence_number := 15|>|> in
  let w' := snd (@send_command sample_constants good_link
                   (Some (CoyoteStrengths.mk 10 20)) None w) in
  sequence_number (self w') = 0
  /\ Z.shiftr (@control_byte sample_constants (sequence_number (self w'))
                 (Some (CoyoteStrengths.mk 10 20))) 4 = 0.
Proof.
  apply (@strengths_command_after_wrap_has_zero_nibble sample_constants good_link
           (with_client<|self ::= fun d => d<|sequence_number := 15|>|>)
           (CoyoteStrengths.mk 10 20) (CoyoteStrengths.mk 10 20)).
  - vm_compute; split; [discriminate|reflexivity].
  - reflexivity.
  - reflexivity.
Defined.

(** ** The command frame *)

Lemma to_bytes_app a b :
  to_bytes (a ++ b) =
    match to_bytes a, to_bytes b with
    | Some x, Some y => Some (x ++ y)
    | _, _ => None
    end.
Proof.
  induction a as [|z a IH]; cbn [app to_bytes].
  - destruct (to_bytes b); reflexivity.
  - rewrite IH. destruct (byte_of_Z z), (to_bytes a), (to_bytes b); reflexivity.
Qed.

Lemma to_bytes_zeros n : to_bytes (repeat 0 n) = Some (repeat x00 n).
Proof.
  induction n as [|n IH]; [reflexivity|].
  cbn [repeat to_bytes]. rewrite IH. reflexivity.
Qed.

Section Frame.
Context `{Constants}.

(** The encoder neither reads nor changes the world. *)
Lemma build_command_pure seq s p w :
  snd (build_command seq s p w) = w.
Proof.
  unfold build_command, bytearray, extend, bind, ret, raise.
  destruct (validate_pulses p);
    repeat match goal with
           | |- context [to_bytes ?l] => destruct (to_bytes l); cbn [fst snd]
           end; reflexivity.
Qed.

Lemma build_command_same seq s p w w0 :
  fst (build_command seq s p w) = fst (build_command seq s p w0).
Proof.
  unfold build_command, bytearray, extend, bind, ret, raise.
  destruct (validate_pulses p);
    repeat match goal with
           | |- context [to_bytes ?l] => destruct (to_bytes l); cbn [fst snd]
           end; reflexivity.
Qed.


(** With every intensity within 0..100 the frame is the header and the four
    runs of pulse bytes. *)
Lemma build_command_valid seq s p w frame :
  has_invalid_intensity p = false ->
  fst (build_command seq s (Some p) w) = Ret frame ->
  exists hdr body,
    to_bytes (header_ints seq s) = Some hdr
    /\ to_bytes (pulse_ints p) = Some body
    /\ frame = hdr ++ body.
Proof.
  unfold has_invalid_intensity, build_command, validate_pulses. intros ->.
  fold (header_ints seq s).
  unfold pulse_ints, bytearray, extend, bind, ret, raise.
  rewrite !to_bytes_app.
  destruct (to_bytes (header_ints seq s)) as [hdr|]; cbn [fst snd]; [|discriminate].
  destruct (to_bytes (map CoyotePulse.duration (CoyotePulses.channel_a p))) as [da|];
    cbn [fst snd]; [|discriminate].
  destruct (to_bytes (map CoyotePulse.intensity (CoyotePulses.channel_a p))) as [ia|];
    cbn [fst snd]; [|discriminate].
  destruct (to_bytes (map CoyotePulse.duration (CoyotePulses.channel_b p))) as [db|];
    cbn [fst snd]; [|discriminate].
  destruct (to_bytes (map CoyotePulse.intensity (CoyotePulses.channel_b p))) as [ib|];
    cbn [fst snd]; [|discriminate].
  intros [= <-]. exists hdr, (da ++ ia ++ db ++ ib).
  repeat split. rewrite <- !app_assoc. reflexivity.
Qed.

Lemma post_build_command seq s p w (Q : outcome (list byte) -> World -> Prop) :
  (forall o, o = fst (build_command seq s p w) -> Q o w) ->
  post (build_command seq s p) w Q.
Proof.
  intros HQ. unfold post. rewrite build_command_pure. apply HQ. reflexivity.
Qed.


End Frame.



(** A valid packet on the same link: the pulse section holds the durations
    and the intensities of channel A, then those of channel B. *)
Example valid_pulses_layout :
  let p := CoyotePulses.mk
             [CoyotePulse.mk 100 1 11; CoyotePulse.mk 100 2 12;
              CoyotePulse.mk 100 3 13; CoyotePulse.mk 100 4 14]
             [CoyotePulse.mk 50 5 21; CoyotePulse.mk 50 6 22;
              CoyotePulse.mk 50 7 23; CoyotePulse.mk 50 8 24] in
  frames_written
    (new_effects with_client
       (snd (@send_command sample_constants good_link None (Some p) with_client)))
  = [[xb0; x00; x00; x00;
      x0b; x0c; x0d; x0e; x01; x02; x03; x04;
      x15; x16; x17; x18; x05; x06; x07; x08]].
Proof. vm_compute. reflexivity. Qed.

(** ** Pulse shaping *)

(** A property of integers checked on a whole interval by evaluation. *)
Lemma forallb_interval (P : Z -> bool) (lo : Z) (n : nat) :
  forallb P (map (fun i => lo + Z.of_nat i) (seq 0 n)) = true ->
  forall z, lo <= z < lo + Z.of_nat n -> P z = true.
Proof.
  intros Hall z Hz.
  rewrite forallb_forall in Hall. apply Hall.
  apply in_map_iff. exists (Z.to_nat (z - lo)). split; [lia|].
  apply in_seq. lia.
Qed.

(** 1000/55 ms lies inside every envelope that starts at 18 ms or below and
    ends at 19 ms or above. *)
Lemma envelope_keeps_18ms (lo hi : Z) :
  0 <= lo <= 18 -> 19 <= hi <= 1000 ->
  clamp (1000 / 55)%float (float_of_int lo) (float_of_int hi) = (1000 / 55)%float.
Proof.
  intros Hlo Hhi. unfold clamp, py_max, py_min.
  assert (Hmin : PrimFloat.ltb (float_of_int hi) (1000 / 55)%float = false).
  { apply negb_true_iff.
    apply (forallb_interval
             (fun z => negb (PrimFloat.ltb (float_of_int z) (1000 / 55)%float)) 19 982);
      [vm_compute; reflexivity | lia]. }
  rewrite Hmin.
  assert (Hmax : PrimFloat.ltb (float_of_int lo) (1000 / 55)%float = true).
  { apply (forallb_interval
             (fun z => PrimFloat.ltb (float_of_int z) (1000 / 55)%float) 0 19);
      [vm_compute; reflexivity | lia]. }
  rewrite Hmax. reflexivity.
Qed.

(** C5 (as the code has it): with the window 10..100 Hz and the normalized
    value 50, [create_pulse] returns duration 18 and display frequency 55,
    for every hardware envelope that contains 18..19 ms.  The display
    frequency is [round(1000 / base_duration)] on the unrounded base duration
    1000/55 ms, and the duration is [int(base_duration)], its truncation. *)
Theorem create_pulse_scenario `{Constants} (intensity : Z) :
  0 <= MIN_PULSE_DURATION_MS <= 18 ->
  19 <= MAX_PULSE_DURATION_MS <= 1000 ->
  create_pulse true 50 10 100 intensity
  = Some {| CoyotePulse.frequency := 55;
            CoyotePulse.intensity := clamp_int intensity 0 100;
            CoyotePulse.duration := 18 |}
  /\ py_round (1000 / (1000 / 55))%float = Some 55
  /\ py_int (1000 / 55)%float = Some 18.
Proof.
  intros Hlo Hhi. unfold create_pulse.
  change (py_max 1 (10 + 50 / 100 * (100 - 10)))%float with 55%float.
  rewrite (envelope_keeps_18ms _ _ Hlo Hhi).
  repeat split.
Qed.

Lemma create_pulse_scenario_witness :
  @create_pulse sample_constants true 50 10 100 40
  = Some {| CoyotePulse.frequency := 55;
            CoyotePulse.intensity := 40;
            CoyotePulse.duration := 18 |}.
Proof.
  apply (@create_pulse_scenario sample_constants 40); vm_compute; split; discriminate.
Defined.

(** C5 (as stated, refuted): in the scenario the display frequency is 55,
    not 56; and the duration is not [round(base_duration)]: at 57 Hz the base
    duration 1000/57 = 17.54 ms rounds to 18 and the pulse lasts 17. *)
Lemma create_pulse_scenario_is_not_56 :
  option_map CoyotePulse.frequency (@create_pulse sample_constants true 50 10 100 40)
    = Some 55
  /\ option_map CoyotePulse.frequency (@create_pulse sample_constants true 50 10 100 40)
     <> Some 56
  /\ option_map CoyotePulse.duration (@create_pulse sample_constants false 57 10 100 40)
     = Some 17
  /\ py_round (1000 / 57)%float = Some 18.
Proof. vm_compute. repeat split; discriminate. Qed.

(** ** Invariants of the driver *)

Lemma preserves_ret {A} P (a : A) : preserves P (ret a).
Proof. intros w Hw; exact Hw. Qed.

Lemma preserves_raise {A} P e : preserves P (@raise A e).
Proof. intros w Hw; exact Hw. Qed.

Lemma preserves_get P : preserves P get.
Proof. intros w Hw; exact Hw. Qed.

Lemma preserves_bind {A B} P (m : M A) (k : A -> M B) :
  preserves P m -> (forall a, preserves P (k a)) -> preserves P (bind m k).
Proof.
  intros Hm Hk w Hw. unfold bind.
  specialize (Hm w Hw). destruct (m w) as [[a|e] w']; cbn in *; [apply Hk|]; assumption.
Qed.

Lemma preserves_try_except {A} P (m : M A) h :
  preserves P m -> (forall e, preserves P (h e)) -> preserves P (try_except m h).
Proof.
  intros Hm Hh w Hw. unfold try_except.
  specialize (Hm w Hw). destruct (m w) as [[a|e] w']; cbn in *; [|apply Hh]; assumption.
Qed.

Lemma preserves_modify (P : World -> Prop) f :
  (forall w, P w -> P (w<|self ::= f|>)) -> preserves P (modify f).
Proof. intros Hf w Hw. apply Hf, Hw. Qed.

Lemma preserves_effect (P : World -> Prop) e :
  (forall w, P w -> P (w<|trace ::= fun t => t ++ [e]|>)) -> preserves P (effect e).
Proof. intros He w Hw. apply He, Hw. Qed.

Lemma preserves_ask {A} (P : World -> Prop) (o : nat -> A) :
  (forall w, P w -> P (w<|calls ::= S|>)) -> preserves P (ask o).
Proof. intros Ho w Hw. apply Ho, Hw. Qed.

Lemma preserves_settings_set (P : World -> Prop) a :
  (forall w, P w ->
     P (w<|coyote_last_device_address := a|><|trace ::= fun t => t ++ [SettingsSet a]|>)) ->
  preserves P (settings_set a).
Proof. intros Ha w Hw. apply Ha, Hw. Qed.

Create HintDb preserved.

(** Decomposes a goal [preserves P m] along [m], down to the elementary
    updates, whose goals [side] must close; a computation with a lemma in the
    database [preserved] is not opened. *)
Ltac preserve_with side :=
  repeat
    lazymatch goal with
    | |- preserves _ (bind _ _) => apply preserves_bind; [|intro]
    | |- preserves _ (try_except _ _) => apply preserves_try_except; [|intro]
    | |- preserves _ (ret _) => apply preserves_ret
    | |- preserves _ (raise _) => apply preserves_raise
    | |- preserves _ get => apply preserves_get
    | |- preserves _ (modify _) => apply preserves_modify; side
    | |- preserves _ (effect _) => apply preserves_effect; side
    | |- preserves _ (ask _) => apply preserves_ask; side
    | |- preserves _ (settings_set _) => apply preserves_settings_set; side
    | |- preserves _ (if ?b then _ else _) => destruct b
    | |- preserves _ (match ?x with _ => _ end) => destruct x
    | |- preserves _ (write_attempts _ _ _) => cbn [write_attempts]
    | |- preserves _ (write_parameters _ _ _) => cbn [write_parameters]
    | |- preserves _ (first_found _) => cbn [first_found]
    | |- preserves _ ?m =>
        first [ solve [auto with preserved]
              | let h := head_of m in unfold h ]
    end.

(** *** The update loop stays stopped *)

Ltac stopped_side := unfold stopped; intros; cbn; auto.

Section Stopped.
Context `{Constants}.
Variable env : Env.

Lemma send_command_stopped s p : preserves stopped (send_command env s p).
Proof. preserve_with stopped_side. Qed.
Hint Resolve send_command_stopped : preserved.

Lemma _disconnect_client_stopped : preserves stopped (_disconnect_client env).
Proof. preserve_with stopped_side. Qed.
Hint Resolve _disconnect_client_stopped : preserved.

Lemma _recover_stopped k : preserves stopped (_recover_from_transient_failure env k).
Proof. preserve_with stopped_side. Qed.
Hint Resolve _recover_stopped : preserved.

Lemma _scan_for_device_stopped : preserves stopped (_scan_for_device env).
Proof. preserve_with stopped_side. Qed.
Hint Resolve _scan_for_device_stopped : preserved.

Lemma _read_battery_level_stopped : preserves stopped (_read_battery_level env).
Proof. preserve_with stopped_side. Qed.
Hint Resolve _read_battery_level_stopped : preserved.

Lemma _send_parameters_stopped : preserves stopped (_send_parameters env).
Proof. preserve_with stopped_side. Qed.
Hint Resolve _send_parameters_stopped : preserved.

Lemma loop_iteration_stopped prev : preserves stopped (loop_iteration env prev).
Proof. preserve_with stopped_side. Qed.
Hint Resolve loop_iteration_stopped : preserved.

(** A teardown that finds a client object stops the update loop. *)
Lemma _disconnect_client_stops w :
  client (self w) <> None -> stopped (snd (_disconnect_client env w)).
Proof.
  intros Hclient.
  change (post (_disconnect_client env) w (fun _ w' => stopped w')).
  unfold _disconnect_client, when.
  apply post_bind, post_get. cbv beta iota.
  destruct (client (self w)) as [c|]; [|congruence]. cbn [is_some].
  apply post_bind, post_bind, post_modify. cbv beta iota.
  eapply post_conseq.
  - apply (post_preserved stopped); [preserve_with stopped_side | reflexivity].
  - cbv beta. intros [[]|e] w' Hw'; [|exact Hw'].
    apply post_modify. exact Hw'.
Qed.

Lemma _recover_stops k w :
  client (self w) <> None ->
  stopped (snd (_recover_from_transient_failure env k w)).
Proof.
  intros Hclient.
  change (post (_recover_from_transient_failure env k) w (fun _ w' => stopped w')).
  unfold _recover_from_transient_failure.
  apply post_bind.
  apply (post_conseq _ w (fun _ w' => stopped w'));
    [exact (_disconnect_client_stops w Hclient)|].
  cbv beta. intros [[]|e] w' Hw'; [|exact Hw'].
  apply (post_preserved stopped); [preserve_with stopped_side | exact Hw'].
Qed.

(** A stopped update loop ends at its next test of [self.running], without
    an effect. *)
Lemma update_loop_from_stopped fuel last w :
  stopped w -> update_loop_from env (S fuel) last w = (Ret true, w).
Proof.
  unfold stopped. intros Hw.
  cbn [update_loop_from]. unfold bind, get. cbn. rewrite Hw. reflexivity.
Qed.

Lemma connection_loop_stopped fuel prev :
  preserves stopped (connection_loop_from env fuel prev).
Proof.
  revert prev. induction fuel as [|fuel IH]; intros prev; cbn [connection_loop_from].
  - apply preserves_ret.
  - preserve_with stopped_side.
Qed.

End Stopped.

(** C9: a teardown that finds a client object, on its own or as the first
    step of the recovery from a transient failure, leaves [self.running]
    false.  No pass of the connection loop sets it again, so it is still false
    after any number of passes, a reconnection included; an update loop that
    tests it ends there and then; only [start_updates] sets it back. *)
Theorem teardown_with_client_stops_updates `{Constants}
    (env : Env) (w : World) (extra_delay : Z) :
  client (self w) <> None ->
  stopped (snd (_disconnect_client env w))
  /\ stopped (snd (_recover_from_transient_failure env extra_delay w))
  /\ (forall fuel prev w',
        stopped w' -> stopped (snd (connection_loop_from env fuel prev w')))
  /\ (forall fuel last w',
        stopped w' -> update_loop_from env (S fuel) last w' = (Ret true, w'))
  /\ (forall a w', running (self (snd (start_updates a w'))) = true).
Proof.
  intros Hclient. repeat split.
  - apply _disconnect_client_stops, Hclient.
  - apply _recover_stops, Hclient.
  - intros fuel prev. apply connection_loop_stopped.
  - intros fuel last w'. apply update_loop_from_stopped.
Qed.

Lemma teardown_with_client_stops_updates_witness :
  let w := with_client<|self ::= fun d => d<|running := true|>|> in
  running (self w) = true
  /\ stopped (snd (@_recover_from_transient_failure sample_constants bad_link 1 w)).
Proof.
  split; [reflexivity|].
  refine (proj1 (proj2 (@teardown_with_client_stops_updates sample_constants bad_link
                          (with_client<|self ::= fun d => d<|running := true|>|>) 1 _))).
  discriminate.
Defined.

(** ** Returning to SCANNING *)

Section Recovery.
Context `{Constants}.
Variable env : Env.

(** The teardown swallows every failure of the link. *)
Lemma _disconnect_client_returns w : fst (_disconnect_client env w) = Ret tt.
Proof.
  change (post (_disconnect_client env) w (fun o _ => o = Ret tt)).
  unfold _disconnect_client. wp; reflexivity.
Qed.

(** The fields the recovery sets itself. *)
Lemma _recover_sets k w :
  post (_recover_from_transient_failure env k) w (fun o w' =>
    o = Ret tt
    /\ connection_stage (self w') = SCANNING
    /\ _scan_attempt_counter (self w') = 0
    /\ (platform_is_win env && (k >? 0) = false ->
        exists n, _next_scan_time (self w') = (time_time env n + 1)%float)).
Proof.
  unfold _recover_from_transient_failure.
  apply post_bind.
  apply (post_conseq _ w (fun o _ => o = Ret tt));
    [exact (_disconnect_client_returns w)|].
  cbv beta. intros o w' ->.
  wp; cbn; repeat split; try discriminate; intros _; eexists; reflexivity.
Qed.

(** The recovery leaves the first-active-power flag as it finds it. *)
Lemma _recover_keeps_flag k b :
  preserves (fun w => _first_active_power_seen (self w) = b)
            (_recover_from_transient_failure env k).
Proof. preserve_with ltac:(intros; cbn; auto). Qed.

(** What a pass does on a pending force-disconnect request. *)
Lemma stage_step_force_disconnect w :
  _force_disconnect (self w) = true ->
  post (stage_step env) w (fun o w' =>
    o = Ret Continue
    /\ connection_stage (self w') = DISCONNECTED
    /\ _first_active_power_seen (self w') = false
    /\ _scan_attempt_counter (self w') = 0
    /\ _next_scan_time (self w') = 0%float).
Proof.
  intros Hforce. unfold stage_step.
  apply post_bind, post_get. cbv beta iota. rewrite Hforce.
  apply post_bind, post_modify. cbv beta iota.
  apply post_bind.
  match goal with
  | |- post _ ?w1 _ =>
      apply (post_conseq _ w1 (fun o _ => o = Ret tt));
        [exact (_disconnect_client_returns w1)|]
  end.
  cbv beta. intros o w' ->.
  wp; cbn; repeat split.
Qed.

(** The pass from DISCONNECTED changes the stage and nothing else. *)
Lemma stage_step_disconnected w :
  _force_disconnect (self w) = false ->
  connection_stage (self w) = DISCONNECTED ->
  stage_step env w = (Ret Next, w<|self ::= fun d => d<|connection_stage := SCANNING|>|>).
Proof.
  intros Hforce Hstage. unfold stage_step, bind, get, ret, modify.
  cbn. rewrite Hforce, Hstage. reflexivity.
Qed.

(** The teardown leaves the scan schedule and the first-active-power flag as
    they are. *)
Lemma _disconnect_client_keeps_schedule t c b :
  preserves (fun w => _next_scan_time (self w) = t
                      /\ _scan_attempt_counter (self w) = c
                      /\ _first_active_power_seen (self w) = b)
            (_disconnect_client env).
Proof. preserve_with ltac:(intros; cbn; auto). Qed.

(** The next-scan time after a recovery, case by case. *)
Lemma _recover_schedule k w :
  let w1 := snd (_disconnect_client env w) in
  _next_scan_time (self (snd (_recover_from_transient_failure env k w)))
  = if platform_is_win env && (k >? 0)
    then if backoff_scan_ok env (calls w1)
         then _next_scan_time (self w)
         else (time_time env (S (calls w1)) + py_min 5 (1 + float_of_int k * 1))%float
    else (time_time env (calls w1) + 1)%float.
Proof.
  cbv zeta.
  pose proof (_disconnect_client_returns w) as Hret.
  pose proof (_disconnect_client_keeps_schedule _ _ _ w (conj eq_refl (conj eq_refl eq_refl)))
    as (Hnext & _ & _).
  unfold _recover_from_transient_failure, bind.
  destruct (_disconnect_client env w) as [o w1]. cbn [fst snd] in *. subst o.
  unfold modify, ask, ret. cbn [fst snd].
  destruct (platform_is_win env && (k >? 0)); cbn [fst snd self set calls].
  - destruct (backoff_scan_ok env (calls w1)); cbn; [exact Hnext | reflexivity].
  - cbn. reflexivity.
Qed.

(** What a pass does when the link of a CONNECTED device is gone. *)
Lemma stage_step_dropped w :
  _force_disconnect (self w) = false ->
  connection_stage (self w) = CONNECTED ->
  link_up env w = false ->
  post (stage_step env) w (fun o w' =>
    o = Ret Continue
    /\ connection_stage (self w') = DISCONNECTED
    /\ _first_active_power_seen (self w') = false
    /\ _scan_attempt_counter (self w') = _scan_attempt_counter (self w)
    /\ _next_scan_time (self w') = _next_scan_time (self w)).
Proof.
  intros Hforce Hstage Hdown. unfold stage_step.
  apply post_bind, post_get. cbv beta iota. rewrite Hforce, Hstage.
  cbn [ConnectionStage_eqb].
  apply post_bind, post_bind.
  apply (post_conseq _ w (fun o w1 =>
           o = Ret false
           /\ _next_scan_time (self w1) = _next_scan_time (self w)
           /\ _scan_attempt_counter (self w1) = _scan_attempt_counter (self w))).
  { unfold client_is_connected, link_up in *. wp; leaf. all: repeat split. }
  cbv beta. intros o w1 (-> & Hnext & Hcounter).
  apply post_ret. cbn [negb].
  apply post_bind.
  apply (post_conseq _ w1 (fun o w2 =>
           o = Ret tt
           /\ _next_scan_time (self w2) = _next_scan_time (self w1)
           /\ _scan_attempt_counter (self w2) = _scan_attempt_counter (self w1))).
  { unfold post. split; [apply _disconnect_client_returns|].
    pose proof (_disconnect_client_keeps_schedule _ _ _ w1
                  (conj eq_refl (conj eq_refl eq_refl))) as (Hn & Hc & _).
    split; assumption. }
  cbv beta. intros o w2 (-> & Hnext2 & Hcounter2).
  wp. cbn. repeat split; congruence.
Qed.

End Recovery.

(** *** The schedule beyond SCANNING *)

Section Schedule.
Context `{Constants}.
Variable env : Env.

Ltac clear_side :=
  unfold schedule_clear; intros;
  cbn [self set trace _scan_attempt_counter _next_scan_time];
  unfold RecordSettersUsingExistingGetters.const; auto.

Ltac current_clear :=
  unfold schedule_clear in *;
  cbn [self set trace calls _scan_attempt_counter _next_scan_time];
  unfold RecordSettersUsingExistingGetters.const;
  first [ assumption | split; assumption | split; reflexivity ].

Ltac schedule_leaf :=
  unfold schedule_clear_beyond_scanning;
  cbn [self set trace calls connection_stage _scan_attempt_counter _next_scan_time];
  unfold RecordSettersUsingExistingGetters.const;
  first [ intros _ Hn; exfalso; apply Hn; first [assumption | reflexivity]
        | intros Hn _; exfalso; apply Hn; first [assumption | reflexivity]
        | intros _ _; current_clear ].

Ltac schedule_step :=
  first
    [ lazymatch goal with
      | |- post (bind (_recover_from_transient_failure _ _) _) ?w _ =>
          apply post_bind;
          apply (post_conseq _ w
                   (fun o w' => o = Ret tt /\ connection_stage (self w') = SCANNING));
          [ eapply post_conseq;
            [ apply _recover_sets
            | cbv beta; intros ? ? (? & ? & _); split; assumption ]
          | cbv beta; intros ? ? (-> & ?) ]
      | |- post (bind ?m _) ?w _ =>
          lazymatch m with
          | client_is_connected _ => idtac
          | send_command _ _ _ => idtac
          | _send_initial_power_zero _ => idtac
          | _send_parameters _ => idtac
          | _read_battery_level _ => idtac
          | _subscribe_to_notifications _ => idtac
          | _disconnect_client _ => idtac
          end;
          apply post_bind;
          apply (post_conseq m w (fun _ w' => schedule_clear w'));
          [ apply (post_preserved schedule_clear);
            [ preserve_with clear_side | current_clear ]
          | cbv beta; intros [?|?] ? ? ]
      end
    | wp_step ].
Ltac schedule := repeat (schedule_step; cbv beta iota).

Lemma _scan_for_device_keeps_stage s :
  preserves (fun w => connection_stage (self w) = s) (_scan_for_device env).
Proof. preserve_with ltac:(intros; cbn; auto). Qed.

Lemma scanning_stage_schedule w :
  connection_stage (self w) = SCANNING ->
  post (scanning_stage env) w (fun _ w' => schedule_clear_beyond_scanning w').
Proof.
  intros Hstage. unfold scanning_stage.
  apply post_bind, post_ask. cbv beta iota.
  apply post_bind, post_get. cbv beta iota.
  destruct (PrimFloat.ltb _ _).
  - apply post_ret. schedule_leaf.
  - apply post_bind.
    match goal with
    | |- post ?m ?w1 _ =>
        apply (post_conseq m w1 (fun _ w' => connection_stage (self w') = SCANNING));
          [apply (post_preserved (fun w' => connection_stage (self w') = SCANNING));
             [apply _scan_for_device_keeps_stage | exact Hstage]|]
    end.
    cbv beta. intros [found|e] w1 Hw1; [|schedule_leaf].
    destruct found; wp; schedule_leaf.
Qed.

(** A stage beyond SCANNING ends with the schedule as it was, or at
    SCANNING. *)
Lemma stage_step_schedule w :
  schedule_clear_beyond_scanning w ->
  post (stage_step env) w (fun _ w' => schedule_clear_beyond_scanning w').
Proof.
  intros Hw. unfold stage_step.
  apply post_bind, post_get. cbv beta iota.
  destruct (_force_disconnect (self w)).
  - apply post_bind, post_modify. cbv beta iota.
    apply post_bind.
    match goal with
    | |- post ?m ?w1 _ =>
        apply (post_conseq m w1 (fun o _ => o = Ret tt));
          [exact (_disconnect_client_returns env w1)|]
    end.
    cbv beta. intros o w1 ->. wp. schedule_leaf.
  - destruct (connection_stage (self w)) eqn:Hstage; cbn [ConnectionStage_eqb].
    + wp. schedule_leaf.
    + apply post_bind, post_ret. cbv beta iota. apply scanning_stage_schedule, Hstage.
    + assert (Hclear : schedule_clear w) by (apply Hw; congruence).
      apply post_bind, post_ret. cbv beta iota.
      unfold connecting_stage, connect_failed, when. schedule. all: schedule_leaf.
    + assert (Hclear : schedule_clear w) by (apply Hw; congruence).
      apply post_bind, post_ret. cbv beta iota.
      unfold service_discovery_stage. schedule. all: schedule_leaf.
    + assert (Hclear : schedule_clear w) by (apply Hw; congruence).
      apply post_bind, post_ret. cbv beta iota.
      unfold status_subscribe_stage. schedule. all: schedule_leaf.
    + assert (Hclear : schedule_clear w) by (apply Hw; congruence).
      apply post_bind, post_ret. cbv beta iota.
      unfold sync_parameters_stage. schedule. all: schedule_leaf.
    + assert (Hclear : schedule_clear w) by (apply Hw; congruence).
      schedule. all: schedule_leaf.
Qed.

(** Every pass keeps the schedule clear beyond SCANNING. *)
Lemma loop_iteration_schedule prev :
  preserves schedule_clear_beyond_scanning (loop_iteration env prev).
Proof.
  intros w Hw.
  change (post (loop_iteration env prev) w (fun _ w' => schedule_clear_beyond_scanning w')).
  unfold loop_iteration.
  apply post_try_except, post_bind.
  eapply post_conseq; [apply stage_step_schedule, Hw|].
  cbv beta. intros [f|e] w' Hw'.
  - destruct f; wp;
      unfold schedule_clear_beyond_scanning in *;
      cbn [self set trace connection_stage _scan_attempt_counter _next_scan_time];
      exact Hw'.
  - schedule. schedule_leaf.
Qed.

Lemma connection_loop_schedule fuel prev :
  preserves schedule_clear_beyond_scanning (connection_loop_from env fuel prev).
Proof.
  revert prev. induction fuel as [|fuel IH]; intros prev; cbn [connection_loop_from].
  - apply preserves_ret.
  - apply preserves_bind; [apply preserves_get | intros d].
    destruct (_shutdown d); [apply preserves_ret|].
    apply preserves_bind; [apply loop_iteration_schedule | intros prev'; apply IH].
Qed.

End Schedule.

Lemma init_schedule name parameters address :
  schedule_clear_beyond_scanning (init_world name parameters address).
Proof. intros Hstage. exfalso. apply Hstage. reflexivity. Qed.

(** C6 (as the code has it): the recovery from a transient failure always
    returns, leaves the stage at SCANNING and the scan retry counter at 0, and
    does not clear the next-scan time.  Off Windows or without a failure
    streak it sets it to one second after the clock reading it takes; on
    Windows with a failure streak it leaves it as it was when the nudge scan
    succeeds, and sets it to the clock reading plus [min(5.0, 1.0 +
    extra_delay)] when the nudge scan fails.  A pending force-disconnect
    clears the first-active-power flag, the counter and the next-scan time on
    the way to DISCONNECTED.  An unexpected drop in CONNECTED clears the flag
    on the way to DISCONNECTED and leaves the counter and the next-scan time
    as they are, which is clear: beyond SCANNING both are 0, a property the
    constructor establishes and every pass of the loop keeps.  The pass from
    DISCONNECTED to SCANNING changes the stage only. *)
Theorem recovery_clears_the_counter_and_schedules_the_scan `{Constants}
    (env : Env) (extra_delay : Z) (w : World) :
  let r := _recover_from_transient_failure env extra_delay w in
  let torn_down := snd (_disconnect_client env w) in
  (fst r = Ret tt
   /\ connection_stage (self (snd r)) = SCANNING
   /\ _scan_attempt_counter (self (snd r)) = 0
   /\ _next_scan_time (self (snd r))
      = if platform_is_win env && (extra_delay >? 0)
        then if backoff_scan_ok env (calls torn_down)
             then _next_scan_time (self w)
             else (time_time env (S (calls torn_down))
                   + py_min 5 (1 + float_of_int extra_delay * 1))%float
        else (time_time env (calls torn_down) + 1)%float)
  /\ (_force_disconnect (self w) = true ->
      let w' := snd (stage_step env w) in
      connection_stage (self w') = DISCONNECTED
      /\ _first_active_power_seen (self w') = false
      /\ _scan_attempt_counter (self w') = 0
      /\ _next_scan_time (self w') = 0%float)
  /\ (_force_disconnect (self w) = false ->
      connection_stage (self w) = CONNECTED ->
      link_up env w = false ->
      let w' := snd (stage_step env w) in
      fst (stage_step env w) = Ret Continue
      /\ connection_stage (self w') = DISCONNECTED
      /\ _first_active_power_seen (self w') = false
      /\ _scan_attempt_counter (self w') = _scan_attempt_counter (self w)
      /\ _next_scan_time (self w') = _next_scan_time (self w)
      /\ (schedule_clear_beyond_scanning w ->
          _scan_attempt_counter (self w') = 0 /\ _next_scan_time (self w') = 0%float))
  /\ (forall name parameters address,
        schedule_clear_beyond_scanning (init_world name parameters address))
  /\ (schedule_clear_beyond_scanning w ->
      forall fuel prev,
        schedule_clear_beyond_scanning (snd (connection_loop_from env fuel prev w)))
  /\ (_force_disconnect (self w) = false ->
      connection_stage (self w) = DISCONNECTED ->
      stage_step env w
      = (Ret Next, w<|self ::= fun d => d<|connection_stage := SCANNING|>|>)).
Proof.
  cbv zeta. split; [|split; [|split; [|split; [|split]]]].
  - destruct (_recover_sets env extra_delay w) as (Hret & Hstage & Hcounter & _).
    repeat split; try assumption.
    apply _recover_schedule.
  - intros Hforce. apply (stage_step_force_disconnect env w Hforce).
  - intros Hforce Hstage Hdown.
    destruct (stage_step_dropped env w Hforce Hstage Hdown)
      as (Hret & Hstage' & Hflag & Hcounter & Hnext).
    split; [exact Hret|]. split; [exact Hstage'|]. split; [exact Hflag|].
    split; [exact Hcounter|]. split; [exact Hnext|].
    intros Hclear. rewrite Hcounter, Hnext. apply Hclear; congruence.
  - apply init_schedule.
  - intros Hw fuel prev. apply connection_loop_schedule, Hw.
  - apply stage_step_disconnected.
Qed.

(** The recovery on Windows after one connect failure, with the next-scan
    time at 7.0 before it: a nudge scan that succeeds leaves the 7.0, one
    that fails sets the deadline two seconds after the clock's 1000.0. *)
Example windows_recovery_schedule :
  let windows := good_link<|platform_is_win := true|> in
  let w := with_client<|self ::= fun d => d<|_next_scan_time := 7%float|>|> in
  _next_scan_time
    (self (snd (@_recover_from_transient_failure sample_constants windows 1 w)))
  = 7%float
  /\ _next_scan_time
       (self (snd (@_recover_from_transient_failure sample_constants
                     (windows<|backoff_scan_ok := fun _ => false|>) 1 w)))
     = 1002%float.
Proof. vm_compute. split; reflexivity. Qed.

(** C6 (as stated, refuted): a device in SYNC_PARAMETERS receives its first
    active-power notification, then the link drops.  The pass of the loop
    recovers to SCANNING with the first-active-power flag still set and the
    next-scan time at 1001.0, not cleared. *)
Lemma recovery_keeps_the_flag_and_sets_a_delay :
  let w0 := with_client<|self ::= fun d => d<|connection_stage := SYNC_PARAMETERS|>|> in
  let w1 := snd (@_handle_status_notification sample_constants [x53; x00; x05; x05] w0) in
  let w2 := snd (@loop_iteration sample_constants bad_link SYNC_PARAMETERS w1) in
  _first_active_power_seen (self w1) = true
  /\ connection_stage (self w2) = SCANNING
  /\ _first_active_power_seen (self w2) = true
  /\ _scan_attempt_counter (self w2) = 0
  /\ _next_scan_time (self w2) = 1001%float
  /\ PrimFloat.eqb (_next_scan_time (self w2)) 0 = false.
Proof. vm_compute. repeat split. Qed.

(** ** The cached address *)

Lemma settings_writes_app l1 l2 :
  settings_writes (l1 ++ l2) = settings_writes l1 ++ settings_writes l2.
Proof. apply flat_map_app. Qed.

Ltac cache_side :=
  unfold same_cache, cache_state; intros;
  cbn [self trace calls coyote_last_device_address set
       _last_device_address _cached_connect_failure_count
       _cached_connect_failure_limit];
  rewrite ?settings_writes_app; cbn [settings_writes flat_map app];
  rewrite ?app_nil_r; auto.

Section Cache.
Context `{Constants}.
Variable env : Env.

Lemma send_command_same_cache w0 s p : preserves (same_cache w0) (send_command env s p).
Proof. preserve_with cache_side. Qed.
Hint Resolve send_command_same_cache : preserved.

Lemma _disconnect_client_same_cache w0 : preserves (same_cache w0) (_disconnect_client env).
Proof. preserve_with cache_side. Qed.
Hint Resolve _disconnect_client_same_cache : preserved.

Lemma _recover_same_cache w0 k :
  preserves (same_cache w0) (_recover_from_transient_failure env k).
Proof. preserve_with cache_side. Qed.
Hint Resolve _recover_same_cache : preserved.

Lemma _read_battery_level_same_cache w0 : preserves (same_cache w0) (_read_battery_level env).
Proof. preserve_with cache_side. Qed.
Hint Resolve _read_battery_level_same_cache : preserved.

Lemma _send_parameters_same_cache w0 : preserves (same_cache w0) (_send_parameters env).
Proof. preserve_with cache_side. Qed.
Hint Resolve _send_parameters_same_cache : preserved.

Lemma same_cache_refl w : same_cache w w.
Proof. reflexivity. Qed.

(** Steps over a recovery, which leaves the cache state alone. *)
Ltac through_recover :=
  lazymatch goal with
  | |- post (_recover_from_transient_failure _ _) ?w1 _ =>
      apply (post_conseq _ w1 (fun _ w' => same_cache w1 w'));
        [ apply (post_preserved (same_cache w1));
          [apply _recover_same_cache | apply same_cache_refl]
        | ]
  end.

(** The failure branch of CONNECTING when the cached address is in use:
    below the limit the counter advances and nothing is written; at the limit
    the address is dropped, the counter reset and the empty string written,
    once. *)
Lemma connect_failed_cached w :
  _using_cached_address (self w) = true ->
  truthy (_last_device_address (self w)) = true ->
  post (connect_failed env) w (fun _ w' =>
    _cached_connect_failure_limit (self w') = _cached_connect_failure_limit (self w)
    /\ if _cached_connect_failure_count (self w) + 1 >=? _cached_connect_failure_limit (self w)
       then _last_device_address (self w') = None
            /\ _cached_connect_failure_count (self w') = 0
            /\ coyote_last_device_address w' = EmptyString
            /\ settings_writes (trace w') = settings_writes (trace w) ++ [EmptyString]
       else _last_device_address (self w') = _last_device_address (self w)
            /\ _cached_connect_failure_count (self w')
               = _cached_connect_failure_count (self w) + 1
            /\ coyote_last_device_address w' = coyote_last_device_address w
            /\ settings_writes (trace w') = settings_writes (trace w)).
Proof.
  intros Husing Htruthy. unfold connect_failed, when.
  apply post_bind, post_modify. cbv beta iota.
  apply post_bind, post_get. cbv beta iota.
  cbn [self set _using_cached_address _last_device_address].
  rewrite Husing, Htruthy. cbn [andb].
  apply post_bind. apply post_bind, post_modify. cbv beta iota.
  apply post_bind, post_modify. cbv beta iota.
  apply post_bind, post_get. cbv beta iota.
  cbn [self set _cached_connect_failure_count _cached_connect_failure_limit
       _skip_cached_reconnect_scans].
  unfold RecordSettersUsingExistingGetters.const.
  destruct (_cached_connect_failure_count (self w) + 1
            >=? _cached_connect_failure_limit (self w));
    unfold _remember_device_address;
    repeat (first [through_recover | wp_step]; cbv beta iota);
    unfold same_cache, cache_state;
    cbn [self trace calls coyote_last_device_address set
         _last_device_address _cached_connect_failure_count
         _cached_connect_failure_limit];
    unfold RecordSettersUsingExistingGetters.const;
    rewrite ?settings_writes_app; cbn [settings_writes flat_map app];
    intros _ w' [= -> -> -> -> ->]; repeat split.
Qed.

(** A failing attempt on the cached address, seen from the CONNECTING stage. *)
Lemma connecting_stage_cached_failure w :
  cached_attempt_fails env w ->
  post (connecting_stage env) w (fun _ w' =>
    _cached_connect_failure_limit (self w') = _cached_connect_failure_limit (self w)
    /\ if _cached_connect_failure_count (self w) + 1 >=? _cached_connect_failure_limit (self w)
       then _last_device_address (self w') = None
            /\ _cached_connect_failure_count (self w') = 0
            /\ coyote_last_device_address w' = EmptyString
            /\ settings_writes (trace w') = settings_writes (trace w) ++ [EmptyString]
       else _last_device_address (self w') = _last_device_address (self w)
            /\ _cached_connect_failure_count (self w')
               = _cached_connect_failure_count (self w) + 1
            /\ coyote_last_device_address w' = coyote_last_device_address w
            /\ settings_writes (trace w') = settings_writes (trace w)).
Proof.
  intros (Hclient & Husing & Htruthy & Hconnect).
  unfold connecting_stage.
  apply post_try_except, post_bind, post_get. cbv beta iota.
  destruct (client (self w)) as [c|]; [|congruence]. cbn [is_some negb].
  apply post_bind, post_ask. cbv beta iota.
  assert (Hfailed :
    forall w1, same_cache w w1 -> _using_cached_address (self w1) = true ->
      post (connect_failed env ;; ret Next) w1 (fun _ w' =>
        _cached_connect_failure_limit (self w') = _cached_connect_failure_limit (self w)
        /\ if _cached_connect_failure_count (self w) + 1
              >=? _cached_connect_failure_limit (self w)
           then _last_device_address (self w') = None
                /\ _cached_connect_failure_count (self w') = 0
                /\ coyote_last_device_address w' = EmptyString
                /\ settings_writes (trace w') = settings_writes (trace w) ++ [EmptyString]
           else _last_device_address (self w') = _last_device_address (self w)
                /\ _cached_connect_failure_count (self w')
                   = _cached_connect_failure_count (self w) + 1
                /\ coyote_last_device_address w' = coyote_last_device_address w
                /\ settings_writes (trace w') = settings_writes (trace w))).
  { intros w1 Hsame Husing1. unfold same_cache, cache_state in Hsame.
    injection Hsame as Haddr Hcount Hlimit Hstore Hwrites.
    apply post_bind.
    eapply post_conseq;
      [apply (connect_failed_cached w1 Husing1); rewrite Haddr; exact Htruthy|].
    cbv beta. rewrite Haddr, Hcount, Hlimit, Hstore, Hwrites.
    intros [[]|e] w' HQ; [apply post_ret|]; exact HQ. }
  destruct (client_connect env (calls w)) as [[]| |]; [congruence| |];
    apply post_bind, post_effect; cbv beta iota; apply post_raise;
    apply Hfailed; solve [cache_side | cbn; assumption].
Qed.

Ltac cleared_side :=
  unfold cleared; intros ? [? ?];
  cbn [self trace calls coyote_last_device_address set _last_device_address];
  rewrite ?settings_writes_app; cbn [settings_writes flat_map app];
  rewrite ?app_nil_r; auto.

Lemma send_command_cleared k s p : preserves (cleared k) (send_command env s p).
Proof. preserve_with cleared_side. Qed.
Hint Resolve send_command_cleared : preserved.

Lemma _disconnect_client_cleared k : preserves (cleared k) (_disconnect_client env).
Proof. preserve_with cleared_side. Qed.
Hint Resolve _disconnect_client_cleared : preserved.

Lemma _recover_cleared k d :
  preserves (cleared k) (_recover_from_transient_failure env d).
Proof. preserve_with cleared_side. Qed.
Hint Resolve _recover_cleared : preserved.

Lemma _read_battery_level_cleared k : preserves (cleared k) (_read_battery_level env).
Proof. preserve_with cleared_side. Qed.
Hint Resolve _read_battery_level_cleared : preserved.

Lemma _send_parameters_cleared k : preserves (cleared k) (_send_parameters env).
Proof. preserve_with cleared_side. Qed.
Hint Resolve _send_parameters_cleared : preserved.

(** With no cached address the failure branch of CONNECTING never reaches
    [_remember_device_address]. *)
Lemma connect_failed_cleared k : preserves (cleared k) (connect_failed env).
Proof.
  intros w Hw.
  change (post (connect_failed env) w (fun _ w' => cleared k w')).
  unfold connect_failed.
  apply post_bind, post_modify. cbv beta iota.
  apply post_bind, post_get. cbv beta iota.
  cbn [self set _using_cached_address _last_device_address].
  destruct Hw as [Haddr Hwrites]. rewrite Haddr. cbn [truthy].
  rewrite andb_false_r. unfold when at 1.
  apply post_bind, post_ret. cbv beta iota.
  apply (post_preserved (cleared k)); [preserve_with cleared_side|].
  split; assumption.
Qed.
Hint Resolve connect_failed_cleared : preserved.

Lemma stage_step_cleared k w :
  connection_stage (self w) <> SCANNING ->
  cleared k w -> cleared k (snd (stage_step env w)).
Proof.
  intros Hstage Hw.
  change (post (stage_step env) w (fun _ w' => cleared k w')).
  unfold stage_step.
  apply post_bind, post_get. cbv beta iota.
  destruct (_force_disconnect (self w)).
  - apply (post_preserved (cleared k)); [preserve_with cleared_side | exact Hw].
  - apply post_bind.
    apply (post_conseq _ w (fun _ w' => cleared k w'));
      [apply (post_preserved (cleared k)); [preserve_with cleared_side | exact Hw]|].
    cbv beta. intros [dropped|e] w' Hw'; [|exact Hw'].
    apply (post_preserved (cleared k)); [|exact Hw'].
    destruct dropped; [preserve_with cleared_side|].
    destruct (connection_stage (self w)) eqn:Estage; try congruence;
      preserve_with cleared_side.
Qed.

(** Once the address has been dropped, no pass of the loop outside the
    SCANNING stage writes to the settings store or brings an address back. *)
Lemma loop_iteration_cleared k prev w :
  connection_stage (self w) <> SCANNING ->
  cleared k w -> cleared k (snd (loop_iteration env prev w)).
Proof.
  intros Hstage Hw.
  change (post (loop_iteration env prev) w (fun _ w' => cleared k w')).
  unfold loop_iteration.
  apply post_try_except, post_bind.
  apply (post_conseq _ w (fun _ w' => cleared k w'));
    [exact (stage_step_cleared k w Hstage Hw)|].
  cbv beta. intros [f|e] w' Hw'.
  - match goal with
    | |- post ?m _ _ =>
        apply (post_conseq m w' (fun _ w'' => cleared k w''));
          [ apply (post_preserved (cleared k));
            [destruct f; preserve_with cleared_side | exact Hw'] | ]
    end.
    cbv beta. intros [a|e] w'' Hw''; [exact Hw''|].
    apply (post_preserved (cleared k)); [preserve_with cleared_side | exact Hw''].
  - apply (post_preserved (cleared k)); [preserve_with cleared_side | exact Hw'].
Qed.

End Cache.

(** C8: three failing attempts in a row on the cached address, the cache
    state being the same from the end of one to the start of the next, with
    the counter at 0 before the first and the limit at 3.  The first two write
    nothing; the third writes the empty address to the settings store, once,
    drops the cached address and resets the counter.  From then on no pass of
    the loop outside the SCANNING stage, where a new match is persisted,
    writes to the settings store or restores an address: a further connect
    failure in particular does not. *)
Theorem three_cached_failures_clear_the_address_once `{Constants}
    (env : Env) (w1 w2 w3 : World) :
  _cached_connect_failure_count (self w1) = 0 ->
  _cached_connect_failure_limit (self w1) = 3 ->
  cached_attempt_fails env w1 ->
  same_cache (snd (connecting_stage env w1)) w2 ->
  cached_attempt_fails env w2 ->
  same_cache (snd (connecting_stage env w2)) w3 ->
  cached_attempt_fails env w3 ->
  let w' := snd (connecting_stage env w3) in
  settings_writes (trace w2) = settings_writes (trace w1)
  /\ settings_writes (trace w3) = settings_writes (trace w1)
  /\ settings_writes (trace w') = settings_writes (trace w1) ++ [EmptyString]
  /\ coyote_last_device_address w' = EmptyString
  /\ _last_device_address (self w') = None
  /\ _cached_connect_failure_count (self w') = 0
  /\ (forall env' prev w'',
        cleared (settings_writes (trace w')) w'' ->
        connection_stage (self w'') <> SCANNING ->
        cleared (settings_writes (trace w')) (snd (loop_iteration env' prev w''))).
Proof.
  intros Hcount Hlimit Hfail1 Hsame12 Hfail2 Hsame23 Hfail3 w'. subst w'.
  pose proof (connecting_stage_cached_failure env w1 Hfail1) as (Hlim1 & Hstep1).
  pose proof (connecting_stage_cached_failure env w2 Hfail2) as (Hlim2 & Hstep2).
  pose proof (connecting_stage_cached_failure env w3 Hfail3) as (Hlim3 & Hstep3).
  unfold post in *. cbv beta in *.
  unfold same_cache, cache_state in Hsame12, Hsame23.
  injection Hsame12 as Haddr2 Hcount2 Hlimit2 Hstore2 Hwrites2.
  injection Hsame23 as Haddr3 Hcount3 Hlimit3 Hstore3 Hwrites3.
  rewrite Hcount, Hlimit in Hstep1. cbn in Hstep1.
  destruct Hstep1 as (Haddr1' & Hcount1' & Hstore1' & Hwrites1').
  rewrite Hcount2, Hcount1', Hlimit2, Hlim1, Hlimit in Hstep2. cbn in Hstep2.
  destruct Hstep2 as (Haddr2' & Hcount2' & Hstore2' & Hwrites2').
  rewrite Hcount3, Hcount2', Hlimit3, Hlim2, Hlimit2, Hlim1, Hlimit in Hstep3.
  cbn in Hstep3.
  destruct Hstep3 as (Haddr3' & Hcount3' & Hstore3' & Hwrites3').
  split; [congruence|]. split; [congruence|]. split; [congruence|].
  split; [exact Hstore3'|]. split; [exact Haddr3'|]. split; [exact Hcount3'|].
  intros env' prev w'' Hcleared Hstage.
  apply loop_iteration_cleared; assumption.
Qed.

Lemma three_cached_failures_witness :
  let w' := snd (@connecting_stage sample_constants dead_link (after_passes 18)) in
  settings_writes (trace (after_passes 2)) = []
  /\ settings_writes (trace w') = [EmptyString]
  /\ _last_device_address (self w') = None.
Proof.
  split; [vm_compute; reflexivity|].
  assert (Hall := @three_cached_failures_clear_the_address_once sample_constants dead_link
                    (after_passes 2) (after_passes 10) (after_passes 18)).
  cbv zeta in Hall.
  destruct Hall as (_ & _ & Hwrites & _ & Haddr & _).
  - vm_compute; reflexivity.
  - vm_compute; reflexivity.
  - repeat split; vm_compute; discriminate || reflexivity.
  - vm_compute; reflexivity.
  - repeat split; vm_compute; discriminate || reflexivity.
  - vm_compute; reflexivity.
  - repeat split; vm_compute; discriminate || reflexivity.
  - split; [|exact Haddr].
    rewrite Hwrites. vm_compute. reflexivity.
Defined.

(** * Further properties of the driver *)

Lemma to_bytes_length l bs : to_bytes l = Some bs -> List.length bs = List.length l.
Proof.
  revert bs. induction l as [|z l IH]; intros bs; cbn [to_bytes].
  - intros [= <-]. reflexivity.
  - destruct (byte_of_Z z); [|discriminate].
    destruct (to_bytes l) as [bs'|]; [|discriminate].
    intros [= <-]. cbn. f_equal. apply IH. reflexivity.
Qed.

Lemma to_bytes_out_of_range l :
  Exists (fun z => z < 0 \/ 255 < z) l -> to_bytes l = None.
Proof.
  induction 1 as [z l Hz | z l _ IH]; cbn [to_bytes].
  - unfold byte_of_Z.
    destruct ((0 <=? z) && (z <? 256)) eqn:Hrange; [|reflexivity].
    apply andb_true_iff in Hrange. lia.
  - rewrite IH. destruct (byte_of_Z z); reflexivity.
Qed.

(** The parameter frame has seven bytes and starts with 0xBF. *)
Lemma parameter_frame_shape p frame :
  to_bytes (parameter_ints p) = Some frame ->
  exists rest, frame = xbf :: rest /\ List.length rest = 6%nat.
Proof.
  intros Hframe. pose proof (to_bytes_length _ _ Hframe) as Hlength.
  unfold parameter_ints in Hframe. cbn [to_bytes] in Hframe.
  change (byte_of_Z 191) with (Some xbf) in Hframe. cbv beta iota in Hframe.
  destruct frame as [|b rest]; [discriminate Hlength|].
  exists rest. split; [|cbn in Hlength; lia].
  match type of Hframe with
  | match ?x with _ => _ end = _ => destruct x; [|discriminate Hframe]
  end.
  injection Hframe as <- _. reflexivity.
Qed.

(** Symbolic execution that also opens the retry loop of the parameter
    frame. *)
Ltac wp_more :=
  repeat (first [ lazymatch goal with
                  | |- post (write_parameters _ _ _) _ _ => cbn [write_parameters]
                  | |- post (first_found _) _ _ => cbn [first_found]
                  end
                | wp_step ];
          cbv beta iota).

#[local] Arguments to_bytes : simpl never.
#[local] Arguments parameter_ints : simpl never.

(** ** The parameter frame *)

Section Parameters.
Variable env : Env.

Lemma _send_parameters_spec w :
  post (_send_parameters env) w (fun o w' =>
    self w' = self w
    /\ (forall frame, In frame (frames_written (new_effects w w')) ->
        to_bytes (parameter_ints (parameters (self w))) = Some frame)
    /\ (List.length (write_attempts_of (new_effects w w')) <= 3)%nat
    /\ (o = Ret true <-> written_ok (new_effects w w') = true)
    /\ (link_up env w = false -> o = Ret false /\ write_attempts_of (new_effects w w') = [])
    /\ (to_bytes (parameter_ints (parameters (self w))) = None ->
        write_attempts_of (new_effects w w') = []
        /\ (link_up env w = true -> o = Raise ValueError))).
Proof.
  unfold _send_parameters. fold (parameter_ints (parameters (self w))).
  wp_more.
  all: cbn [self trace set]; added;
       cbn [frames_written write_attempts_of written_ok flat_map existsb app List.length orb].
  all: leaf; unfold parameter_ints in *.
  all: repeat split; try congruence; try lia; try discriminate.
  all: try (intros frame Hin; cbn in Hin;
            repeat match type of Hin with
                   | _ \/ _ => destruct Hin as [<- | Hin]
                   | False => destruct Hin
                   end; assumption).
Qed.
End Parameters.



(** ** Retries and errors of [send_command] *)

Section SendCommandMore.
Context `{Constants}.
Variable env : Env.

(** Symbolic execution of [send_command] with the encoder kept closed; the
    frame it returns is related to the encoder run in the initial world. *)
Ltac wp_send w :=
  unfold send_command;
  repeat (first [ apply post_build_command; intros [?frame|?e] ?Hbuilt
                | wp_step ];
          cbv beta iota);
  cbn [self trace set]; added;
  cbn [frames_written write_attempts_of written_ok flat_map existsb app List.length orb];
  repeat match goal with
         | Hb : _ = fst (build_command _ _ _ _) |- _ =>
             cbn [self sequence_number set] in Hb;
             rewrite (build_command_same _ _ _ _ w) in Hb;
             symmetry in Hb
         end;
  unfold link_up;
  repeat match goal with
         | Hq : negb _ = true |- _ => apply negb_true_iff in Hq
         | Hq : negb _ = false |- _ => apply negb_false_iff in Hq
         | Hq : _ && _ = true |- _ => apply andb_true_iff in Hq; destruct Hq
         | Hq : _ && _ = false |- _ => apply andb_false_iff in Hq
         end;
  cbn [self trace calls set client] in *;
  repeat match goal with
         | Hc : client (self w) = _ |- _ => rewrite Hc
         | Hc : is_connected env (calls w) = _ |- _ => rewrite Hc
         end;
  try match goal with
      | Hq : false = true |- _ => discriminate Hq
      | Hq : true = false |- _ => discriminate Hq
      end.

Lemma send_command_attempts s p w :
  post (send_command env s p) w (fun o w' =>
    let attempts := write_attempts_of (new_effects w w') in
    (attempts = [] /\ o <> Ret true)
    \/ exists frame,
         fst (build_command (sequence_number (self w)) s p w) = Ret frame
         /\ link_up env w = true
         /\ ((exists n, (n <= 2)%nat
                        /\ attempts = repeat (frame, false) n ++ [(frame, true)]
                        /\ o = Ret true)
             \/ (attempts = repeat (frame, false) 3 /\ o = Ret false))).
Proof.
  wp_send w.
  all: try (left; split; [reflexivity | discriminate]).
  all: right; eexists; split; [eassumption|]; split; [reflexivity|].
  all: first [ left; exists 0%nat; split; [lia|]; split; reflexivity
             | left; exists 1%nat; split; [lia|]; split; reflexivity
             | left; exists 2%nat; split; [lia|]; split; reflexivity
             | right; split; reflexivity ].
Qed.


End SendCommandMore.


(** ** What a notification can change *)

Section NotificationsMore.
Context `{Constants}.

Lemma record_eta_strengths_flag (d : CoyoteDevice) :
  d = d<|strengths := strengths d|><|_first_active_power_seen := _first_active_power_seen d|>.
Proof. destruct d; reflexivity. Qed.

Lemma _handle_status_notification_frame data w :
  post (_handle_status_notification data) w (fun _ w' =>
    self w' = (self w)<|strengths := strengths (self w')|>
                      <|_first_active_power_seen := _first_active_power_seen (self w')|>
    /\ calls w' = calls w
    /\ coyote_last_device_address w' = coyote_last_device_address w
    /\ (_first_active_power_seen (self w) = true ->
        _first_active_power_seen (self w') = true)
    /\ (new_effects w w' = []
        \/ new_effects w w' = [Emit (power_levels_changed (strengths (self w')))])
    /\ (new_effects w w' <> [] \/ strengths (self w') <> strengths (self w) ->
        exists b0 b1 b2 b3 rest,
          data = b0 :: b1 :: b2 :: b3 :: rest /\ Z_of_byte b0 = CMD_POWER_UPDATE)).
Proof.
  unfold post.
  assert (Hquiet : forall w1,
     self w1 = self w \/ self w1 = (self w)<|_first_active_power_seen := true|> ->
     trace w1 = trace w -> calls w1 = calls w ->
     coyote_last_device_address w1 = coyote_last_device_address w ->
     self w1 = (self w)<|strengths := strengths (self w1)|>
                       <|_first_active_power_seen := _first_active_power_seen (self w1)|>
     /\ calls w1 = calls w
     /\ coyote_last_device_address w1 = coyote_last_device_address w
     /\ (_first_active_power_seen (self w) = true ->
         _first_active_power_seen (self w1) = true)
     /\ (new_effects w w1 = []
         \/ new_effects w w1 = [Emit (power_levels_changed (strengths (self w1)))])
     /\ (new_effects w w1 <> [] \/ strengths (self w1) <> strengths (self w) ->
         exists b0 b1 b2 b3 rest,
           data = b0 :: b1 :: b2 :: b3 :: rest /\ Z_of_byte b0 = CMD_POWER_UPDATE)).
  { intros w1 Hself Htrace Hcalls Hstore.
    assert (Hnew : new_effects w w1 = [])
      by (unfold new_effects; rewrite Htrace; apply skipn_all).
    rewrite Hnew.
    repeat split; auto.
    - destruct Hself as [-> | ->]; destruct (self w); reflexivity.
    - destruct Hself as [-> | ->]; auto.
    - intros [Hne | Hne]; [congruence|].
      exfalso. apply Hne. destruct Hself as [-> | ->]; reflexivity. }
  destruct data as [|b0 [|b1 [|b2 [|b3 rest]]]];
    try (apply Hquiet; auto; fail).
  unfold _handle_status_notification.
  cbn [index nth_error bind ret fst snd].
  destruct (Z_of_byte b0 =? CMD_POWER_UPDATE) eqn:Hupdate.
  - apply Z.eqb_eq in Hupdate. clear Hquiet.
    unfold bind, modify, get, emit, effect, ret. cbn [fst snd].
    added. cbn [self trace calls coyote_last_device_address set strengths
                _first_active_power_seen].
    unfold RecordSettersUsingExistingGetters.const.
    repeat split; auto.
    intros _. exists b0, b1, b2, b3, rest. split; [reflexivity | exact Hupdate].
  - destruct (Z_of_byte b0 =? CMD_ACK); [apply Hquiet; auto|].
    destruct (Z_of_byte b0 =? CMD_ACTIVE_POWER); [|apply Hquiet; auto].
    cbn [List.length Nat.ltb Nat.leb].
    unfold bind, get, ret, modify. cbn [fst snd].
    destruct (_first_active_power_seen (self w)) eqn:Hseen; cbn [negb fst snd].
    + apply (Hquiet w); auto.
    + apply (Hquiet (w<|self ::= fun d => d<|_first_active_power_seen := true|>|>)); auto.
Qed.

End NotificationsMore.


(** ** Teardown *)

Section Teardown.
Context `{Constants}.
Variable env : Env.

Lemma zero_pulses_valid : has_invalid_intensity zero_pulses = false.
Proof.
  unfold has_invalid_intensity, zero_pulses. cbn [CoyotePulses.channel_a CoyotePulses.channel_b].
  assert (Hz : forall n, existsb invalid_intensity (repeat (CoyotePulse.mk 0 0 0) n) = false).
  { induction n as [|n IH]; [reflexivity|]. cbn. exact IH. }
  rewrite Hz. reflexivity.
Qed.

Lemma zero_pulses_bytes :
  to_bytes (pulse_ints zero_pulses) = Some (repeat x00 (4 * PULSES_PER_PACKET)).
Proof.
  unfold pulse_ints, zero_pulses. cbn [CoyotePulses.channel_a CoyotePulses.channel_b].
  rewrite !map_repeat. cbn [CoyotePulse.duration CoyotePulse.intensity].
  rewrite <- !repeat_app, to_bytes_zeros.
  do 2 f_equal. lia.
Qed.

Lemma world_eta_client_none w :
  client (self w) = None -> w<|self ::= fun d => d<|client := None|>|> = w.
Proof. destruct w as [d a t c]. destruct d. cbn. intros ->. reflexivity. Qed.

Lemma _disconnect_client_spec w :
  post (_disconnect_client env) w (fun o w' =>
    o = Ret tt
    /\ self w' = (self w)<|client := None|>
                      <|running := running (self w')|>
                      <|sequence_number := sequence_number (self w')|>
                      <|_logged_first_send_payload := _logged_first_send_payload (self w')|>
    /\ coyote_last_device_address w' = coyote_last_device_address w
    /\ settings_writes (new_effects w w') = []
    /\ (client (self w) = None -> w' = w)
    /\ (client (self w) <> None ->
        (exists mid,
           new_effects w w' = Emit (pulse_sent zero_pulses) :: mid ++ [Disconnect])
        /\ (forall frame, In frame (frames_written (new_effects w w')) ->
            fst (build_command (sequence_number (self w)) None (Some zero_pulses) w)
            = Ret frame)
        /\ sequence_number (self w') =
             if written_ok (new_effects w w')
             then (sequence_number (self w) + 1) mod SEQUENCE_MODULO
             else sequence_number (self w))).
Proof.
  unfold _disconnect_client, send_command.
  repeat (first [ apply post_build_command; intros [?frame|?e] ?Hbuilt
                | wp_step ];
          cbv beta iota).
  all: try (match goal with
            | Hb : is_some (client (self ?w0)) = false |- _ =>
                destruct (client (self w0)) eqn:Hc; [discriminate Hb|];
                (split; [reflexivity|]);
                (split; [cbn [self set]; destruct (self w0); reflexivity|]);
                (split; [reflexivity|]);
                (split; [unfold new_effects; cbn [trace set]; rewrite skipn_all;
                         reflexivity|]);
                split; [intros _; apply world_eta_client_none; exact Hc | congruence]
            end).
  all: added;
       cbn [frames_written written_ok settings_writes flat_map existsb app orb];
       cbn [self trace calls set client strengths sequence_number];
       unfold RecordSettersUsingExistingGetters.const;
       repeat match goal with
              | Hb : _ = fst (build_command _ _ _ _) |- _ =>
                  cbn [self sequence_number set] in Hb;
                  rewrite (build_command_same _ _ _ _ w) in Hb;
                  symmetry in Hb
              end;
       (split; [reflexivity|]);
       (split; [destruct (self w); reflexivity|]);
       (split; [reflexivity|]); (split; [reflexivity|]);
       (split; [intros Hnone; rewrite Hnone in *; cbn [is_some] in *; discriminate|]);
       intros _;
       (split; [match goal with
                | |- exists mid, ?x :: ?tl = ?x :: mid ++ _ =>
                    exists (removelast tl); reflexivity
                end|]);
       (split; [intros frame' Hin; cbn in Hin;
                repeat match type of Hin with
                       | _ \/ _ => destruct Hin as [<- | Hin]
                       | False => destruct Hin
                       end; assumption|]);
       reflexivity.
Qed.
End Teardown.


(** ** The lifecycle *)

Section Lifecycle.
Context `{Constants}.
Variable env : Env.

Ltac edge_side :=
  unfold lifecycle_edge; intros;
  cbn [self set connection_stage next_stage];
  unfold RecordSettersUsingExistingGetters.const; auto 6.

(** Every pass of the loop follows an edge of the lifecycle. *)
Lemma loop_iteration_edge prev w :
  lifecycle_edge (connection_stage (self w))
                 (connection_stage (self (snd (loop_iteration env prev w)))).
Proof.
  pose (P := fun w' : World =>
               lifecycle_edge (connection_stage (self w)) (connection_stage (self w'))).
  assert (HP : P w) by (left; reflexivity).
  change (post (loop_iteration env prev) w (fun _ w' => P w')).
  unfold loop_iteration.
  apply post_try_except, post_bind.
  assert (Hstep : post (stage_step env) w (fun _ w' => P w')).
  { unfold stage_step.
    apply post_bind, post_get. cbv beta iota.
    destruct (_force_disconnect (self w)).
    - apply (post_preserved P); [subst P; preserve_with edge_side | exact HP].
    - apply post_bind.
      apply (post_conseq _ w (fun _ w' => P w'));
        [apply (post_preserved P); [subst P; preserve_with edge_side | exact HP]|].
      cbv beta. intros [dropped|e] w' Hw'; [|exact Hw'].
      apply (post_preserved P); [|exact Hw'].
      destruct dropped; [subst P; preserve_with edge_side|].
      subst P. destruct (connection_stage (self w)); preserve_with edge_side. }
  apply (post_conseq _ w (fun _ w' => P w')); [exact Hstep|].
  cbv beta. intros [f|e] w' Hw'.
  - match goal with
    | |- post ?m _ _ =>
        apply (post_conseq m w' (fun _ w'' => P w''));
          [ apply (post_preserved P);
            [destruct f; subst P; preserve_with edge_side | exact Hw'] | ]
    end.
    cbv beta. intros [a|e] w'' Hw''; [exact Hw''|].
    apply (post_preserved P); [subst P; preserve_with edge_side | exact Hw''].
  - apply (post_preserved P); [subst P; preserve_with edge_side | exact Hw'].
Qed.

Ltac counters_side :=
  unfold counters_in_range; intros ? (? & ? & ? & ? & ?);
  cbn [self set sequence_number _skip_cached_reconnect_scans _scan_attempt_counter
       _scan_failure_streak _connect_failure_streak];
  unfold RecordSettersUsingExistingGetters.const, SEQUENCE_MODULO;
  repeat split;
  try lia;
  try (apply Z.mod_pos_bound; lia);
  try (match goal with
       | |- _ <= _ mod 16 => apply Z.mod_pos_bound; lia
       | |- ?x mod 16 <= 15 =>
           let Hm := fresh in pose proof (Z.mod_pos_bound x 16) as Hm; lia
       | |- context [if ?b then _ else _] => destruct b; lia
       end).

(** The scan decrements the skip counter only when it is positive. *)
Lemma _scan_for_device_counters : preserves counters_in_range (_scan_for_device env).
Proof.
  intros w Hw.
  change (post (_scan_for_device env) w (fun _ w' => counters_in_range w')).
  unfold _scan_for_device.
  apply post_bind, post_ask. cbv beta iota.
  apply post_bind, post_get. cbv beta iota.
  apply post_bind.
  match goal with
  | |- post _ ?w1 _ =>
      assert (Hw1 : counters_in_range w1) by (revert Hw; generalize w; counters_side)
  end.
  unfold when.
  match goal with
  | |- post (if ?c then _ else _) _ _ => destruct c eqn:Hcond
  end.
  - apply post_modify. cbv beta iota.
    apply (post_preserved counters_in_range); [preserve_with counters_side|].
    apply andb_true_iff in Hcond. destruct Hcond as [_ Hpositive].
    apply Z.gtb_lt in Hpositive.
    cbn [self set calls _skip_cached_reconnect_scans] in Hpositive.
    revert Hw Hpositive. unfold counters_in_range.
    cbn [self set sequence_number _skip_cached_reconnect_scans _scan_attempt_counter
         _scan_failure_streak _connect_failure_streak].
    unfold RecordSettersUsingExistingGetters.const.
    intros (Hseq & Hsk & Hattempt & Hscan & Hconnect) Hpositive.
    repeat split; lia.
  - apply post_ret. cbv beta iota.
    apply (post_preserved counters_in_range); [preserve_with counters_side | exact Hw1].
Qed.
Hint Resolve _scan_for_device_counters : preserved.

Lemma loop_iteration_counters prev : preserves counters_in_range (loop_iteration env prev).
Proof. preserve_with counters_side. Qed.

Lemma send_command_counters s p : preserves counters_in_range (send_command env s p).
Proof. preserve_with counters_side. Qed.

Lemma _handle_status_notification_counters data :
  preserves counters_in_range (_handle_status_notification data).
Proof. unfold _handle_status_notification, index. preserve_with counters_side. Qed.

Lemma connection_loop_counters fuel prev :
  preserves counters_in_range (connection_loop_from env fuel prev).
Proof.
  revert prev. induction fuel as [|fuel IH]; intros prev; cbn [connection_loop_from].
  - apply preserves_ret.
  - apply preserves_bind; [apply preserves_get | intros d].
    destruct (_shutdown d); [apply preserves_ret|].
    apply preserves_bind; [apply loop_iteration_counters | intros prev'; apply IH].
Qed.

Lemma update_loop_counters fuel last :
  preserves counters_in_range (update_loop_from env fuel last).
Proof.
  revert last. induction fuel as [|fuel IH]; intros last; cbn [update_loop_from].
  - apply preserves_ret.
  - apply preserves_bind; [apply preserves_get | intros d].
    destruct (running d); [|apply preserves_ret].
    apply preserves_bind; [|intros last'; apply IH].
    preserve_with counters_side.
Qed.

End Lifecycle.

Lemma init_counters name parameters address :
  counters_in_range (init_world name parameters address).
Proof. unfold counters_in_range. cbn. lia. Qed.


(** ** Recovery and the facade *)

Section Facade.
Context `{Constants}.
Variable env : Env.

(** The fields a recovery can change. *)
Lemma _recover_frame k w :
  post (_recover_from_transient_failure env k) w (fun o w' =>
    o = Ret tt
    /\ self w' = (self w)<|client := None|>
                      <|running := running (self w')|>
                      <|sequence_number := sequence_number (self w')|>
                      <|_logged_first_send_payload := _logged_first_send_payload (self w')|>
                      <|_scan_attempt_counter := 0|>
                      <|connection_stage := SCANNING|>
                      <|_next_scan_time := _next_scan_time (self w')|>).
Proof.
  unfold _recover_from_transient_failure.
  apply post_bind.
  eapply post_conseq; [apply (_disconnect_client_spec env w)|].
  cbv beta. intros o w1 (-> & Hframe & _).
  wp.
  all: split; [reflexivity|];
       cbn [self set]; rewrite Hframe;
       cbn [self set running sequence_number _logged_first_send_payload _next_scan_time];
       unfold RecordSettersUsingExistingGetters.const;
       destruct (self w); reflexivity.
Qed.

(** [disconnect]: what it leaves behind. *)
Lemma disconnect_spec w :
  post (disconnect env) w (fun o w' =>
    o = Ret tt
    /\ _shutdown (self w') = true
    /\ connection_stage (self w') = DISCONNECTED
    /\ client (self w') = None).
Proof.
  unfold disconnect.
  apply post_bind, post_modify. cbv beta iota.
  apply post_bind.
  match goal with
  | |- post _ ?w1 _ => eapply post_conseq; [apply (_disconnect_client_spec env w1)|]
  end.
  cbv beta. intros o w1 (-> & Hframe & _).
  apply post_modify.
  cbn [self set]. rewrite Hframe. cbn. repeat split.
Qed.

(** The loop tests [_shutdown] before every pass. *)
Lemma connection_loop_shutdown fuel prev w :
  _shutdown (self w) = true ->
  connection_loop_from env (S fuel) prev w = (Ret true, w).
Proof.
  intros Hshutdown. cbn [connection_loop_from]. unfold bind, get. cbn.
  rewrite Hshutdown. reflexivity.
Qed.

(** A pass that finds a force-disconnect request. *)
Lemma loop_iteration_forced prev w :
  _force_disconnect (self w) = true ->
  post (loop_iteration env prev) w (fun o w' =>
    o = Ret prev
    /\ self w' = (self w)<|client := None|>
                      <|running := running (self w')|>
                      <|sequence_number := sequence_number (self w')|>
                      <|_logged_first_send_payload := _logged_first_send_payload (self w')|>
                      <|_force_disconnect := false|>
                      <|_scan_attempt_counter := 0|>
                      <|_next_scan_time := 0%float|>
                      <|_first_active_power_seen := false|>
                      <|connection_stage := DISCONNECTED|>
    /\ coyote_last_device_address w' = coyote_last_device_address w).
Proof.
  intros Hforce. unfold loop_iteration, stage_step.
  apply post_try_except, post_bind, post_bind, post_get. cbv beta iota.
  rewrite Hforce.
  apply post_bind, post_modify. cbv beta iota.
  apply post_bind.
  match goal with
  | |- post _ ?w1 _ => eapply post_conseq; [apply (_disconnect_client_spec env w1)|]
  end.
  cbv beta. intros o w1 (-> & Hframe & Hstore & _).
  wp.
  split; [reflexivity|]. split; [|exact Hstore].
  cbn [self set]. rewrite Hframe.
  cbn [self set running sequence_number _logged_first_send_payload].
  unfold RecordSettersUsingExistingGetters.const.
  destruct (self w); reflexivity.
Qed.

(** A pass that starts right after a reset request. *)
Lemma forced_pass_after_request prev w requested :
  self requested = (self w)<|_scan_attempt_counter := 0|>
                           <|_next_scan_time := 0%float|>
                           <|_force_disconnect := true|> ->
  coyote_last_device_address requested = coyote_last_device_address w ->
  _force_disconnect (self requested) = true
  /\ connection_stage (self requested) = connection_stage (self w)
  /\ client (self requested) = client (self w)
  /\ fst (loop_iteration env prev requested) = Ret prev
  /\ self (snd (loop_iteration env prev requested))
     = (self w)<|client := None|>
               <|running := running (self (snd (loop_iteration env prev requested)))|>
               <|sequence_number :=
                   sequence_number (self (snd (loop_iteration env prev requested)))|>
               <|_logged_first_send_payload :=
                   _logged_first_send_payload (self (snd (loop_iteration env prev requested)))|>
               <|_force_disconnect := false|>
               <|_scan_attempt_counter := 0|>
               <|_next_scan_time := 0%float|>
               <|_first_active_power_seen := false|>
               <|connection_stage := DISCONNECTED|>
  /\ coyote_last_device_address (snd (loop_iteration env prev requested))
     = coyote_last_device_address w.
Proof.
  intros Hself Hstore0.
  assert (Hforce : _force_disconnect (self requested) = true)
    by (rewrite Hself; reflexivity).
  pose proof (loop_iteration_forced prev requested Hforce) as Hspec.
  unfold post in Hspec. destruct Hspec as (Hret & Hframe & Hstore).
  split; [exact Hforce|].
  split; [rewrite Hself; reflexivity|]. split; [rewrite Hself; reflexivity|].
  split; [exact Hret|]. split; [|congruence].
  etransitivity; [exact Hframe|]. rewrite Hself.
  destruct (self w); reflexivity.
Qed.

End Facade.


(** ** The scan *)

Section Scan.
Context `{Constants}.
Variable env : Env.

Lemma scan_stage_outcome_trans w w1 w2 o :
  scan_stage_outcome w (Ret false) w1 -> scan_stage_outcome w1 o w2 ->
  scan_stage_outcome w o w2.
Proof.
  intros (f1 & [= <-] & Hc1 & Hs1 & Hg1 & Ha1 & Ht1) (f2 & -> & Hc2 & Hs2 & Hg2 & Ha2 & Ht2).
  exists f2. repeat split; try congruence.
  destruct f2; congruence.
Qed.

Lemma first_found_outcome stages :
  Forall (fun stage => forall w, post stage w (scan_stage_outcome w)) stages ->
  forall w, post (first_found stages) w (scan_stage_outcome w).
Proof.
  induction 1 as [|stage rest Hstage _ IH]; intros w; cbn [first_found].
  - apply post_ret. exists false. repeat split.
  - apply post_bind. eapply post_conseq; [apply Hstage|].
    cbv beta. intros o w1 (found & -> & Hfound).
    destruct found.
    + apply post_ret. exists true. exact (conj eq_refl Hfound).
    + eapply post_conseq; [apply IH|].
      cbv beta. intros o w2. apply scan_stage_outcome_trans.
      exists false. exact (conj eq_refl Hfound).
Qed.

Ltac stage_leaf :=
  first [ exists true; cbn; repeat split; reflexivity
        | exists false; cbn; repeat split; reflexivity ].

Lemma bind_cached_outcome address clear w :
  post (bind_cached env address clear) w (scan_stage_outcome w).
Proof. unfold bind_cached, when. wp. all: stage_leaf. Qed.

Lemma adopt_first_outcome matching w :
  post (adopt_first env matching) w (fun o w' =>
    match o with
    | Ret _ => scan_stage_outcome w o w'
    | Raise _ => scan_stage_outcome w (Ret false) w'
    end).
Proof. unfold adopt_first, adopt. wp. all: stage_leaf. Qed.

Lemma scan_step_outcome {A} (oracle : nat -> answer A) (k : A -> M bool) w :
  (forall a w1, post (k a) w1 (fun o w' =>
     match o with
     | Ret _ => scan_stage_outcome w1 o w'
     | Raise _ => scan_stage_outcome w1 (Ret false) w'
     end)) ->
  post (scan_step oracle k) w (scan_stage_outcome w).
Proof.
  intros Hk. unfold scan_step.
  apply post_try_except, post_bind, post_ask. cbv beta iota.
  assert (Hask : scan_stage_outcome w (Ret false) (w<|calls ::= S|>))
    by (exists false; repeat split).
  destruct (oracle (calls w)) as [a| |].
  - eapply post_conseq; [apply Hk|].
    cbv beta. intros [b|e] w' Hw'.
    + exact (scan_stage_outcome_trans _ _ _ _ Hask Hw').
    + apply post_ret. exact (scan_stage_outcome_trans _ _ _ _ Hask Hw').
  - apply post_raise, post_ret. exact Hask.
  - apply post_raise, post_ret. exact Hask.
Qed.

(** [_scan_for_device] never raises; a found device leaves a client and
    clears the failure streak, a miss leaves the client as it was and counts
    one more failure. *)
Lemma _scan_for_device_spec w :
  post (_scan_for_device env) w (fun o w' =>
    exists found,
      o = Ret found
      /\ (if found
          then is_some (client (self w')) = true /\ _scan_failure_streak (self w') = 0
          else client (self w') = client (self w)
               /\ _scan_failure_streak (self w') = _scan_failure_streak (self w) + 1)
      /\ connection_stage (self w') = connection_stage (self w)
      /\ _scan_attempt_counter (self w') = _scan_attempt_counter (self w)
      /\ _next_scan_time (self w') = _next_scan_time (self w)).
Proof.
  unfold _scan_for_device.
  apply post_bind, post_ask. cbv beta iota.
  apply post_bind, post_get. cbv beta iota.
  apply post_bind.
  match goal with
  | |- post ?m ?w1 _ =>
      apply (post_conseq m w1 (fun o w' => o = Ret tt /\ scan_stage_outcome w (Ret false) w'))
  end.
  { unfold when. wp. all: split; [reflexivity|]; exists false; repeat split. }
  cbv beta. intros o w1 (-> & Hw1).
  apply post_bind.
  eapply post_conseq.
  { apply first_found_outcome. repeat constructor; intros w2.
    - destruct (_ && negb _); [apply bind_cached_outcome | apply post_ret; exists false; repeat split].
    - apply scan_step_outcome. intros; apply adopt_first_outcome.
    - apply scan_step_outcome. intros; apply adopt_first_outcome.
    - apply scan_step_outcome. intros; apply adopt_first_outcome.
    - apply post_bind, post_get. cbv beta iota.
      destruct (_ && _); [|apply post_ret; exists false; repeat split].
      apply scan_step_outcome. intros [[|x l] devices] w3; apply adopt_first_outcome.
    - match goal with
      | |- post (if ?c then _ else _) _ _ => destruct c
      end; [apply bind_cached_outcome | apply post_ret; exists false; repeat split]. }
  cbv beta. intros o w2 Hw2.
  pose proof (scan_stage_outcome_trans _ _ _ _ Hw1 Hw2) as (found & -> & Hc & Hs & Hg & Ha & Ht).
  unfold _finish. wp.
  exists found. cbn [self set client _scan_failure_streak connection_stage
                     _scan_attempt_counter _next_scan_time].
  unfold RecordSettersUsingExistingGetters.const.
  destruct found; repeat split; try assumption; try congruence.
Qed.

End Scan.


(** ** The SCANNING stage *)



Section Scanning.
Context `{Constants}.
Variable env : Env.


End Scanning.


(** ** The pulse envelope *)

Lemma digits2_pos_bounds m :
  2 ^ (Z.pos (digits2_pos m) - 1) <= Z.pos m < 2 ^ Z.pos (digits2_pos m).
Proof.
  assert (Hstep : forall d, 0 < d -> 2 ^ d = 2 * 2 ^ (d - 1)).
  { intros d Hd. rewrite <- Z.pow_succ_r by lia. f_equal. lia. }
  induction m as [m IH|m IH|]; cbn [digits2_pos].
  - rewrite Pos2Z.inj_succ. change (Z.pos m~1) with (2 * Z.pos m + 1).
    replace (Z.succ (Z.pos (digits2_pos m)) - 1) with (Z.pos (digits2_pos m)) by lia.
    rewrite (Hstep (Z.succ _)) by lia.
    replace (Z.succ (Z.pos (digits2_pos m)) - 1) with (Z.pos (digits2_pos m)) by lia.
    rewrite (Hstep (Z.pos (digits2_pos m))) in * by lia. lia.
  - rewrite Pos2Z.inj_succ. change (Z.pos m~0) with (2 * Z.pos m).
    replace (Z.succ (Z.pos (digits2_pos m)) - 1) with (Z.pos (digits2_pos m)) by lia.
    rewrite (Hstep (Z.succ _)) by lia.
    replace (Z.succ (Z.pos (digits2_pos m)) - 1) with (Z.pos (digits2_pos m)) by lia.
    rewrite (Hstep (Z.pos (digits2_pos m))) in * by lia. lia.
  - cbn. lia.
Qed.

Lemma py_int_between_5_and_240 x :
  PrimFloat.ltb 5 x = true -> PrimFloat.ltb 240 x = false ->
  exists z, py_int x = Some z /\ 5 <= z <= 240.
Proof.
  rewrite !ltb_spec. unfold py_int.
  pose proof (Prim2SF_valid x) as Hvalid.
  assert (H5 : Prim2SF 5 = S754_finite false 5629499534213120 (-50))
    by (vm_compute; reflexivity).
  assert (H240 : Prim2SF 240 = S754_finite false 8444249301319680 (-45))
    by (vm_compute; reflexivity).
  rewrite H5, H240. clear H5 H240.
  destruct (Prim2SF x) as [s|s| |s m e].
  all: unfold SFltb, SFcompare.
  - destruct s; discriminate.
  - destruct s; discriminate.
  - discriminate.
  - destruct s; [discriminate|].
    cbn [SpecFloat.valid_binary] in Hvalid.
    unfold bounded, canonical_mantissa, fexp, SpecFloat.emin, prec, emax in Hvalid.
    apply andb_true_iff in Hvalid. destruct Hvalid as [Hcanonical _].
    apply Z.eqb_eq in Hcanonical.
    pose proof (digits2_pos_bounds m) as Hdigits.
    intros Hlow Hhigh.
    assert (He : -50 <= e <= -45).
    { destruct (Z.compare_spec (-50) e), (Z.compare_spec (-45) e);
        try discriminate; lia. }
    assert (Hd : Z.pos (digits2_pos m) = 53) by lia.
    rewrite Hd in Hdigits.
    assert (Hm5 : e = -50 -> 5629499534213120 < Z.pos m).
    { intros ->. rewrite Z.compare_refl in Hlow.
      rewrite Pos.compare_cont_spec in Hlow. cbn [Pos.switch_Eq] in Hlow.
      destruct (Pos.compare_spec 5629499534213120 m); try discriminate. lia. }
    assert (Hm240 : e = -45 -> Z.pos m <= 8444249301319680).
    { intros ->. rewrite Z.compare_refl in Hhigh.
      rewrite Pos.compare_cont_spec in Hhigh. cbn [Pos.switch_Eq] in Hhigh.
      destruct (Pos.compare_spec 8444249301319680 m) as [Heq|Hlt|Hgt].
      - rewrite <- Heq. apply Z.le_refl.
      - discriminate Hhigh.
      - apply Z.lt_le_incl. exact Hgt. }
    clear Hlow Hhigh Hcanonical Hd.
    eexists. split; [reflexivity|].
    assert (Hcases : e = -50 \/ e = -49 \/ e = -48 \/ e = -47 \/ e = -46 \/ e = -45) by lia.
    replace (2 ^ (53 - 1)) with 4503599627370496 in Hdigits by (vm_compute; reflexivity).
    replace (2 ^ 53) with 9007199254740992 in Hdigits by (vm_compute; reflexivity).
    destruct Hcases as [-> | [-> | [-> | [-> | [-> | ->]]]]];
      cbn [Z.leb Z.compare Z.opp];
      match goal with
      | |- _ <= _ / 2 ^ ?k <= _ =>
          let p := eval vm_compute in (2 ^ k) in
          replace (2 ^ k) with p by (vm_compute; reflexivity)
      end.
    all: split.
    all: first [ apply Z.div_le_lower_bound; [reflexivity|]
               | apply Z.lt_succ_r, Z.div_lt_upper_bound; [reflexivity|] ].
    all: try (specialize (Hm5 eq_refl)); try (specialize (Hm240 eq_refl)).
    all: clear He.
    all: lia.
Qed.
(** The duration of every pulse lies within the instrument's 5..240 ms, its
    intensity within 0..100, and its display frequency is at least 1. *)
Lemma create_pulse_bounds `{Constants} using_funscript raw_value lo hi intensity p :
  MIN_PULSE_DURATION_MS = 5 -> MAX_PULSE_DURATION_MS = 240 ->
  create_pulse using_funscript raw_value lo hi intensity = Some p ->
  5 <= CoyotePulse.duration p <= 240
  /\ 0 <= CoyotePulse.intensity p <= 100
  /\ 1 <= CoyotePulse.frequency p.
Proof.
  intros Hmin Hmax. unfold create_pulse. rewrite Hmin, Hmax.
  replace (float_of_int 5) with 5%float by (vm_compute; reflexivity).
  replace (float_of_int 240) with 240%float by (vm_compute; reflexivity).
  match goal with
  | |- context [clamp ?x 5 240] => generalize x
  end.
  intros base.
  assert (Hduration : exists z, py_int (clamp base 5 240) = Some z /\ 5 <= z <= 240).
  { unfold clamp, py_max, py_min.
    destruct (PrimFloat.ltb 240 base) eqn:Hhigh.
    - replace (PrimFloat.ltb 5 240) with true by (vm_compute; reflexivity).
      exists 240. split; [vm_compute; reflexivity | lia].
    - destruct (PrimFloat.ltb 5 base) eqn:Hlow.
      + apply py_int_between_5_and_240; assumption.
      + exists 5. split; [vm_compute; reflexivity | lia]. }
  destruct Hduration as (z & -> & Hz).
  destruct (py_round _) as [rounded|]; [|discriminate].
  intros [= <-]. cbn [CoyotePulse.duration CoyotePulse.intensity CoyotePulse.frequency].
  unfold clamp_int. lia.
Qed.


(** In direct mode a whole frequency inside the channel's window comes back
    saturated to 4..200 Hz, with the duration [1000 // f] saturated to
    5..240 ms. *)
Lemma create_pulse_direct `{Constants} (f : Z) (lo hi : float) (intensity : Z) :
  MIN_PULSE_DURATION_MS = 5 -> MAX_PULSE_DURATION_MS = 240 ->
  1 <= f <= 1000 ->
  clamp (float_of_int f) lo hi = float_of_int f ->
  create_pulse false (float_of_int f) lo hi intensity
  = Some {| CoyotePulse.frequency := clamp_int f 4 200;
            CoyotePulse.intensity := clamp_int intensity 0 100;
            CoyotePulse.duration := clamp_int (1000 / f) 5 240 |}.
Proof.
  intros Hmin Hmax Hf Hwindow. unfold create_pulse. rewrite Hwindow, Hmin, Hmax.
  pose (shaped := fun f : Z =>
    let base := clamp (1000 / py_max 1 (float_of_int f))%float
                      (float_of_int 5) (float_of_int 240) in
    match py_round (1000 / base)%float, py_int base with
    | Some rounded, Some duration =>
        (Z.max 1 rounded =? clamp_int f 4 200) && (duration =? clamp_int (1000 / f) 5 240)
    | _, _ => false
    end).
  assert (Hshaped : shaped f = true).
  { apply (forallb_interval shaped 1 1000); [vm_compute; reflexivity | lia]. }
  unfold shaped in Hshaped. cbv zeta in Hshaped.
  destruct (py_round _) as [rounded|]; [|discriminate].
  destruct (py_int _) as [duration|]; [|discriminate].
  apply andb_true_iff in Hshaped. destruct Hshaped as [Hr Hd].
  apply Z.eqb_eq in Hr, Hd. rewrite Hr, Hd. reflexivity.
Qed.

(** ** The duration limits *)

(** The limits lie inside the hardware envelope and are ordered when the
    envelope is. *)
Lemma _duration_limits_envelope `{Constants} min_freq max_freq low high :
  _duration_limits min_freq max_freq = Some (low, high) ->
  MIN_PULSE_DURATION_MS <= low
  /\ high <= MAX_PULSE_DURATION_MS
  /\ (MIN_PULSE_DURATION_MS <= MAX_PULSE_DURATION_MS -> low <= high).
Proof.
  unfold _duration_limits.
  destruct (py_round _) as [shortest|]; [|discriminate].
  destruct (py_round _) as [longest|]; [|discriminate].
  destruct (Z.gtb_spec (Z.max MIN_PULSE_DURATION_MS shortest)
                       (Z.min MAX_PULSE_DURATION_MS longest));
    intros [= <- <-]; lia.
Qed.

Lemma _clamp_duration_spec g duration_ms low high :
  low <= high ->
  let '(clamped_duration, clamped, g') := _clamp_duration g duration_ms (low, high) in
  low <= clamped_duration <= high
  /\ (clamped = false <-> clamped_duration = duration_ms)
  /\ (clamped = false <-> low <= duration_ms <= high)
  /\ g' = (if clamped then g<|_residual_ms := 0%float|> else g)
  /\ _clamp_duration g' clamped_duration (low, high) = (clamped_duration, false, g').
Proof.
  intros Horder. unfold _clamp_duration, clamp_int.
  replace (Z.max low (Z.min (Z.max low (Z.min duration_ms high)) high))
    with (Z.max low (Z.min duration_ms high)) by lia.
  rewrite Z.eqb_refl. cbn [negb].
  destruct (Z.eqb_spec (Z.max low (Z.min duration_ms high)) duration_ms) as [Heq|Hne];
    cbn [negb]; repeat split; intros; try lia; try congruence.
Qed.

(** ** The battery *)

Section Battery.
Variable env : Env.

Lemma _handle_battery_notification_spec data w :
  post (_handle_battery_notification data) w (fun o w' =>
    match data with
    | [] => o = Raise IndexError /\ w' = w
    | b :: _ =>
        o = Ret tt
        /\ self w' = (self w)<|battery_level := Z_of_byte b|>
        /\ new_effects w w' = [Emit (battery_level_changed (Z_of_byte b))]
        /\ 0 <= battery_level (self w') <= 255
    end).
Proof.
  unfold _handle_battery_notification, index.
  destruct data as [|b rest]; cbn [nth_error].
  - wp. split; reflexivity.
  - wp. unfold emit. wp. added. cbn [self set battery_level].
    repeat split; apply Z_of_byte_range.
Qed.

(** The battery read swallows every failure, changes nothing but the battery
    level, and reports the level it stores. *)
Lemma _read_battery_level_spec w :
  post (_read_battery_level env) w (fun o w' =>
    o = Ret tt
    /\ self w' = (self w)<|battery_level := battery_level (self w')|>
    /\ ((battery_level (self w') = battery_level (self w)
         /\ signals_of (new_effects w w') = [])
        \/ (exists b,
              battery_level (self w') = Z_of_byte b
              /\ signals_of (new_effects w w') = [battery_level_changed (Z_of_byte b)]
              /\ link_up env w = true))
    /\ (link_up env w = false -> self w' = self w /\ signals_of (new_effects w w') = [])).
Proof.
  unfold _read_battery_level, client_is_connected, emit. wp.
  all: added; cbn [signals_of flat_map app self set battery_level].
  all: unfold link_up;
       repeat match goal with
              | Hq : negb _ = true |- _ => apply negb_true_iff in Hq
              | Hq : negb _ = false |- _ => apply negb_false_iff in Hq
              | Hq : client (self _) = _ |- _ => rewrite Hq
              | Hq : is_connected env _ = _ |- _ => rewrite Hq
              end;
       try match goal with
           | Hq : false = true |- _ => discriminate Hq
           | Hq : true = false |- _ => discriminate Hq
           end.
  all: (split; [reflexivity|]);
       (split; [destruct (self w); reflexivity|]);
       split;
       [ first [ left; split; reflexivity
               | right; eexists; repeat split; reflexivity ]
       | intros Hdown; try discriminate Hdown; split; reflexivity ].
Qed.

End Battery.

(** ** The update loop *)

Section UpdateLoop.
Context `{Constants}.
Variable env : Env.

Lemma update_iteration_returns last w :
  post (update_iteration env last) w (fun o w' =>
    (exists t, o = Ret t)
    /\ (algorithm (self w) = None -> o = Ret last /\ w' = w)).
Proof.
  unfold update_iteration.
  apply post_bind, post_get. cbv beta iota.
  destruct (algorithm (self w)) as [a|] eqn:Halgorithm; cbn [is_some negb].
  - apply post_bind, post_ask. cbv beta iota.
    apply post_bind.
    match goal with
    | |- post ?m ?w1 _ => apply (post_conseq m w1 (fun o _ => exists t, o = Ret t))
    end.
    { destruct (PrimFloat.leb _ _).
      - apply post_bind.
        eapply post_conseq; [apply _read_battery_level_spec|].
        cbv beta. intros o w' (-> & _). apply post_ret. eexists; reflexivity.
      - apply post_ret. eexists; reflexivity. }
    cbv beta. intros o w1 (t & ->).
    apply post_bind.
    match goal with
    | |- post ?m ?w1 _ => apply (post_conseq m w1 (fun o _ => o = Ret tt))
    end.
    { apply post_try_except.
      match goal with
      | |- post ?m ?w1 _ =>
          apply (post_conseq m w1 (fun _ _ => True)); [exact I|]
      end.
      intros [[]|e] w2 _; [reflexivity|]. apply post_ret. reflexivity. }
    cbv beta. intros o w2 ->. apply post_ret.
    split; [eexists; reflexivity | discriminate].
  - apply post_ret. split; [eexists; reflexivity|]. intros _. split; reflexivity.
Qed.

Ltac outside_side :=
  unfold outside_update_loop; intros;
  cbn [self trace set strengths connection_stage client parameters];
  rewrite ?settings_writes_app; cbn [settings_writes flat_map app];
  rewrite ?app_nil_r; auto.

Lemma update_iteration_outside w0 last :
  preserves (outside_update_loop w0) (update_iteration env last).
Proof. preserve_with outside_side. Qed.

Lemma update_loop_from_outside w0 fuel last :
  preserves (outside_update_loop w0) (update_loop_from env fuel last).
Proof.
  revert last. induction fuel as [|fuel IH]; intros last; cbn [update_loop_from].
  - apply preserves_ret.
  - apply preserves_bind; [apply preserves_get | intros d].
    destruct (running d); [|apply preserves_ret].
    apply preserves_bind; [apply update_iteration_outside | intros last'; apply IH].
Qed.

Lemma update_loop_from_returns fuel last w :
  exists ended, fst (update_loop_from env fuel last w) = Ret ended.
Proof.
  revert last w. induction fuel as [|fuel IH]; intros last w; cbn [update_loop_from].
  - eexists; reflexivity.
  - unfold bind at 1. cbn [get fst snd].
    destruct (running (self w)); [|eexists; reflexivity].
    unfold bind.
    pose proof (update_iteration_returns last w) as [(t & Ht) _]. unfold post in Ht.
    destruct (update_iteration env last w) as [o w']. cbn [fst] in Ht. subst o.
    apply IH.
Qed.

End UpdateLoop.

(** * The driver, function by function *)

(** ** The parameter frame *)

(** X1: [_send_parameters] leaves the object as it is; every frame it writes
    is the encoding of the seven parameter integers, seven bytes that start
    with 0xBF; it makes at most three write attempts and returns [True]
    exactly when one of them went through. *)
Theorem parameter_sync_frame_and_outcome (env : Env) (w : World) :
  let r := _send_parameters env w in
  let added := new_effects w (snd r) in
  self (snd r) = self w
  /\ (forall frame, In frame (frames_written added) ->
      to_bytes (parameter_ints (parameters (self w))) = Some frame
      /\ exists rest, frame = xbf :: rest /\ List.length rest = 6%nat)
  /\ (List.length (write_attempts_of added) <= 3)%nat
  /\ (fst r = Ret true <-> written_ok added = true).
Proof.
  cbv zeta.
  pose proof (_send_parameters_spec env w) as Hspec. unfold post in Hspec.
  destruct Hspec as (Hself & Hframes & Hattempts & Hok & _).
  repeat split; try assumption; try apply Hok.
  - apply Hframes. assumption.
  - apply (parameter_frame_shape (parameters (self w))). apply Hframes. assumption.
Qed.

(** X2: without a live link [_send_parameters] returns [False] and makes no
    write attempt. *)
Theorem parameter_sync_without_link (env : Env) (w : World) :
  link_up env w = false ->
  let r := _send_parameters env w in
  fst r = Ret false
  /\ self (snd r) = self w
  /\ write_attempts_of (new_effects w (snd r)) = [].
Proof.
  intros Hdown. cbv zeta.
  pose proof (_send_parameters_spec env w) as Hspec. unfold post in Hspec.
  destruct Hspec as (Hself & _ & _ & _ & Hoff & _).
  destruct (Hoff Hdown) as [Hret Hnone]. repeat split; assumption.
Qed.

Lemma parameter_sync_without_link_witness :
  link_up bad_link with_client = false
  /\ fst (_send_parameters bad_link with_client) = Ret false.
Proof.
  split; [reflexivity|].
  refine (proj1 (parameter_sync_without_link bad_link with_client _)).
  reflexivity.
Defined.

(** X3: with a live link and a parameter outside 0..255, [_send_parameters]
    raises [ValueError] before any write attempt. *)
Theorem parameter_out_of_byte_range_raises (env : Env) (w : World) :
  link_up env w = true ->
  Exists (fun z => z < 0 \/ 255 < z) (parameter_ints (parameters (self w))) ->
  let r := _send_parameters env w in
  fst r = Raise ValueError
  /\ self (snd r) = self w
  /\ write_attempts_of (new_effects w (snd r)) = [].
Proof.
  intros Hup Hrange. cbv zeta.
  pose proof (_send_parameters_spec env w) as Hspec. unfold post in Hspec.
  destruct Hspec as (Hself & _ & _ & _ & _ & Hbad).
  destruct (Hbad (to_bytes_out_of_range _ Hrange)) as [Hnone Hraise].
  repeat split; auto.
Qed.

Lemma parameter_out_of_byte_range_raises_witness :
  let w := with_client<|self ::= fun d =>
             d<|parameters := CoyoteParams.mk 300 200 160 160 0 0|>|> in
  fst (_send_parameters good_link w) = Raise ValueError.
Proof.
  refine (proj1 (parameter_out_of_byte_range_raises good_link
                   (with_client<|self ::= fun d =>
                      d<|parameters := CoyoteParams.mk 300 200 160 160 0 0|>|>) _ _)).
  - reflexivity.
  - apply Exists_cons_tl, Exists_cons_hd. cbn. lia.
Defined.

(** ** Retries and errors of [send_command] *)

(** X4: a call of [send_command] either makes no write attempt and does not
    return [True], or the link is up, the encoder built a frame, and the
    call writes that same frame again and again: up to two failures and a
    success, with [True], or three failures, with [False]. *)
Theorem send_command_retries_the_same_frame `{Constants} (env : Env)
    (s : option CoyoteStrengths.t) (p : option CoyotePulses.t) (w : World) :
  let r := send_command env s p w in
  let attempts := write_attempts_of (new_effects w (snd r)) in
  (attempts = [] /\ fst r <> Ret true)
  \/ exists frame,
       fst (build_command (sequence_number (self w)) s p w) = Ret frame
       /\ link_up env w = true
       /\ ((exists n, (n <= 2)%nat
                      /\ attempts = repeat (frame, false) n ++ [(frame, true)]
                      /\ fst r = Ret true)
           \/ (attempts = repeat (frame, false) 3 /\ fst r = Ret false)).
Proof. exact (send_command_attempts env s p w). Qed.


(** ** Status notifications *)

(** X6: a status notification changes at most [self.strengths] and the
    first-active-power flag, which it never clears; it asks the library
    nothing, writes no setting and emits at most one signal, the new
    strengths; a signal or a change of the strengths needs a frame of four
    bytes or more that starts with [CMD_POWER_UPDATE]. *)
Theorem status_notification_changes_strengths_only `{Constants}
    (data : list byte) (w : World) :
  let w' := snd (_handle_status_notification data w) in
  self w' = (self w)<|strengths := strengths (self w')|>
                    <|_first_active_power_seen := _first_active_power_seen (self w')|>
  /\ calls w' = calls w
  /\ coyote_last_device_address w' = coyote_last_device_address w
  /\ (_first_active_power_seen (self w) = true ->
      _first_active_power_seen (self w') = true)
  /\ (new_effects w w' = []
      \/ new_effects w w' = [Emit (power_levels_changed (strengths (self w')))])
  /\ (new_effects w w' <> [] \/ strengths (self w') <> strengths (self w) ->
      exists b0 b1 b2 b3 rest,
        data = b0 :: b1 :: b2 :: b3 :: rest /\ Z_of_byte b0 = CMD_POWER_UPDATE).
Proof. exact (_handle_status_notification_frame data w). Qed.

(** ** Teardown, recovery and the facade *)

(** X7: a teardown that finds a client returns, drops the client and stops
    the update loop; the first thing it does is emit [pulse_sent] for the
    all-zero packet and the last is the disconnect; every frame it writes is
    the header without strengths followed by [4 * PULSES_PER_PACKET] zero
    bytes; the sequence number advances by one modulo 16 when a write went
    through and stays otherwise; nothing is written to the settings. *)
Theorem teardown_sends_the_zero_packet_then_disconnects `{Constants}
    (env : Env) (w : World) :
  client (self w) <> None ->
  let r := _disconnect_client env w in
  let added := new_effects w (snd r) in
  fst r = Ret tt
  /\ client (self (snd r)) = None
  /\ running (self (snd r)) = false
  /\ (exists mid, added = Emit (pulse_sent zero_pulses) :: mid ++ [Disconnect])
  /\ (forall frame, In frame (frames_written added) ->
      exists header,
        to_bytes (header_ints (sequence_number (self w)) None) = Some header
        /\ frame = header ++ repeat x00 (4 * PULSES_PER_PACKET))
  /\ sequence_number (self (snd r))
     = (if written_ok added
        then (sequence_number (self w) + 1) mod SEQUENCE_MODULO
        else sequence_number (self w))
  /\ settings_writes added = []
  /\ coyote_last_device_address (snd r) = coyote_last_device_address w.
Proof.
  intros Hclient. cbv zeta.
  pose proof (_disconnect_client_spec env w) as Hspec. unfold post in Hspec.
  destruct Hspec as (Hret & Hframe & Hstore & Hsettings & _ & Hwith).
  destruct (Hwith Hclient) as (Hfirst & Hframes & Hseq).
  repeat split; try assumption.
  - rewrite Hframe. reflexivity.
  - apply _disconnect_client_stops, Hclient.
  - intros frame Hin.
    destruct (build_command_valid _ _ _ _ _ zero_pulses_valid (Hframes frame Hin))
      as (header & body & Hheader & Hbody & ->).
    rewrite zero_pulses_bytes in Hbody. injection Hbody as <-.
    exists header. split; [exact Hheader | reflexivity].
Qed.

Lemma teardown_sends_the_zero_packet_then_disconnects_witness :
  client (self with_client) <> None
  /\ fst (@_disconnect_client sample_constants good_link with_client) = Ret tt.
Proof.
  split; [discriminate|].
  refine (proj1 (@teardown_sends_the_zero_packet_then_disconnects
                   sample_constants good_link with_client _)).
  discriminate.
Defined.

(** X8: a teardown that finds no client does nothing at all. *)
Theorem teardown_without_client_is_a_no_op `{Constants} (env : Env) (w : World) :
  client (self w) = None ->
  _disconnect_client env w = (Ret tt, w).
Proof.
  intros Hclient.
  pose proof (_disconnect_client_spec env w) as Hspec. unfold post in Hspec.
  destruct Hspec as (Hret & _ & _ & _ & Hnone & _).
  specialize (Hnone Hclient).
  destruct (_disconnect_client env w) as [o w']. cbn [fst snd] in *.
  congruence.
Qed.

Lemma teardown_without_client_is_a_no_op_witness :
  @_disconnect_client sample_constants good_link fresh = (Ret tt, fresh).
Proof.
  apply (@teardown_without_client_is_a_no_op sample_constants good_link fresh).
  reflexivity.
Defined.

(** X9: a recovery from a transient failure always returns, and of the
    object it changes at most the client (dropped), [running], the sequence
    number, the first-payload flag, the scan retry counter (0), the stage
    (SCANNING) and the next-scan time: strengths, battery level, parameters,
    the cached address and its counters, the failure streaks and the
    shutdown and force-disconnect requests stay as they are. *)
Theorem recovery_changes_seven_fields_at_most `{Constants}
    (env : Env) (extra_delay : Z) (w : World) :
  let r := _recover_from_transient_failure env extra_delay w in
  let d' := self (snd r) in
  fst r = Ret tt
  /\ d' = (self w)<|client := None|>
                  <|running := running d'|>
                  <|sequence_number := sequence_number d'|>
                  <|_logged_first_send_payload := _logged_first_send_payload d'|>
                  <|_scan_attempt_counter := 0|>
                  <|connection_stage := SCANNING|>
                  <|_next_scan_time := _next_scan_time d'|>.
Proof. exact (_recover_frame env extra_delay w). Qed.

(** X10: [disconnect] returns, leaves the shutdown request set, the stage at
    DISCONNECTED and no client; a connection loop that tests the request
    afterwards ends at once, without a pass. *)
Theorem disconnect_ends_the_connection_loop `{Constants} (env : Env) (w : World) :
  let r := disconnect env w in
  fst r = Ret tt
  /\ _shutdown (self (snd r)) = true
  /\ connection_stage (self (snd r)) = DISCONNECTED
  /\ client (self (snd r)) = None
  /\ (forall fuel prev,
        connection_loop_from env (S fuel) prev (snd r) = (Ret true, snd r)).
Proof.
  cbv zeta.
  pose proof (disconnect_spec env w) as Hspec. unfold post in Hspec.
  destruct Hspec as (Hret & Hshutdown & Hstage & Hclient).
  repeat split; try assumption.
  intros fuel prev. apply connection_loop_shutdown, Hshutdown.
Qed.

(** X11: [reset_connection] only leaves a request; the next pass of the
    connection loop serves it: the pass ends by [continue], so that the
    loop's previous stage stays and no status signal is due, with the
    request consumed, no client, the stage at DISCONNECTED, and the scan
    retry counter, the next-scan time and the first-active-power flag
    cleared; besides these and what the teardown sets ([running], the
    sequence number, the first-payload flag) the object and the persisted
    address are as before the reset. *)
Theorem reset_connection_is_served_by_the_next_pass `{Constants}
    (env : Env) (prev : ConnectionStage) (w : World) :
  let requested := snd (reset_connection w) in
  let r := loop_iteration env prev requested in
  let d' := self (snd r) in
  fst (reset_connection w) = Ret tt
  /\ _force_disconnect (self requested) = true
  /\ connection_stage (self requested) = connection_stage (self w)
  /\ client (self requested) = client (self w)
  /\ fst r = Ret prev
  /\ d' = (self w)<|client := None|>
                  <|running := running d'|>
                  <|sequence_number := sequence_number d'|>
                  <|_logged_first_send_payload := _logged_first_send_payload d'|>
                  <|_force_disconnect := false|>
                  <|_scan_attempt_counter := 0|>
                  <|_next_scan_time := 0%float|>
                  <|_first_active_power_seen := false|>
                  <|connection_stage := DISCONNECTED|>
  /\ coyote_last_device_address (snd r) = coyote_last_device_address w.
Proof.
  cbv zeta.
  split; [reflexivity|].
  exact (forced_pass_after_request env prev w (snd (reset_connection w))
           eq_refl eq_refl).
Qed.

(** ** The lifecycle *)

(** X12: a pass of the connection loop leaves the stage where it is, moves it
    to the next stage of the lifecycle, or falls back to SCANNING or
    DISCONNECTED; so CONNECTED is entered from SYNC_PARAMETERS only,
    SYNC_PARAMETERS from STATUS_SUBSCRIBE only and STATUS_SUBSCRIBE from
    SERVICE_DISCOVERY only. *)
Theorem every_pass_follows_a_lifecycle_edge `{Constants}
    (env : Env) (prev : ConnectionStage) (w : World) :
  let s := connection_stage (self w) in
  let s' := connection_stage (self (snd (loop_iteration env prev w))) in
  lifecycle_edge s s'
  /\ (s' = CONNECTED -> s = SYNC_PARAMETERS \/ s = CONNECTED)
  /\ (s' = SYNC_PARAMETERS -> s = STATUS_SUBSCRIBE \/ s = SYNC_PARAMETERS)
  /\ (s' = STATUS_SUBSCRIBE -> s = SERVICE_DISCOVERY \/ s = STATUS_SUBSCRIBE)
  /\ (s' = SERVICE_DISCOVERY -> s = CONNECTING \/ s = SERVICE_DISCOVERY).
Proof.
  cbv zeta. pose proof (loop_iteration_edge env prev w) as Hedge.
  split; [exact Hedge|].
  unfold lifecycle_edge in Hedge.
  destruct (connection_stage (self w));
    destruct Hedge as [-> | [-> | [-> | ->]]]; cbn [next_stage];
    repeat split; intros; try discriminate; auto.
Qed.

(** X13: the sequence number stays within 0..15, and the skip counter, the
    scan retry counter and the two failure streaks never go below zero:
    the connection loop, [send_command], the status notifications and the
    update loop keep these ranges, and the constructor establishes them. *)
Theorem counters_stay_in_range `{Constants} (env : Env) (w : World) :
  counters_in_range w ->
  (forall fuel prev, counters_in_range (snd (connection_loop_from env fuel prev w)))
  /\ (forall s p, counters_in_range (snd (send_command env s p w)))
  /\ (forall data, counters_in_range (snd (_handle_status_notification data w)))
  /\ (forall fuel last, counters_in_range (snd (update_loop_from env fuel last w))).
Proof.
  intros Hw. split; [|split; [|split]].
  - intros fuel prev. apply connection_loop_counters, Hw.
  - intros s p. apply send_command_counters, Hw.
  - intros data. apply _handle_status_notification_counters, Hw.
  - intros fuel last. apply update_loop_counters, Hw.
Qed.

Lemma counters_stay_in_range_witness :
  counters_in_range fresh
  /\ counters_in_range
       (snd (@connection_loop_from sample_constants dead_link 19 DISCONNECTED fresh)).
Proof.
  assert (Hfresh : counters_in_range fresh)
    by (apply init_counters).
  split; [exact Hfresh|].
  exact (proj1 (@counters_stay_in_range sample_constants dead_link fresh Hfresh)
           19%nat DISCONNECTED).
Defined.

(** ** The scan *)

(** X14: [_scan_for_device] never raises.  When it finds the device there is
    a client afterwards and the scan failure streak is 0; when it does not,
    the client is the one from before and the streak is one higher.  The
    stage, the scan retry counter and the next-scan time are not its
    business. *)
Theorem scan_binds_a_client_or_counts_a_failure `{Constants} (env : Env) (w : World) :
  let r := _scan_for_device env w in
  let d' := self (snd r) in
  exists found,
    fst r = Ret found
    /\ (if found
        then is_some (client d') = true /\ _scan_failure_streak d' = 0
        else client d' = client (self w)
             /\ _scan_failure_streak d' = _scan_failure_streak (self w) + 1)
    /\ connection_stage d' = connection_stage (self w)
    /\ _scan_attempt_counter d' = _scan_attempt_counter (self w)
    /\ _next_scan_time d' = _next_scan_time (self w).
Proof. exact (_scan_for_device_spec env w). Qed.


(** ** Pulse shaping *)

(** X16: with the instrument's envelope of 5..240 ms, every pulse
    [create_pulse] returns has a duration within 5..240 ms, an intensity
    within 0..100 and a display frequency of at least 1, whatever the axis
    value, the window and the requested intensity are (NaN and infinities
    included). *)
Theorem create_pulse_stays_in_the_envelope `{Constants} (using_funscript : bool)
    (raw_value user_freq_min user_freq_max : float) (intensity : Z)
    (p : CoyotePulse.t) :
  MIN_PULSE_DURATION_MS = 5 -> MAX_PULSE_DURATION_MS = 240 ->
  create_pulse using_funscript raw_value user_freq_min user_freq_max intensity = Some p ->
  5 <= CoyotePulse.duration p <= 240
  /\ 0 <= CoyotePulse.intensity p <= 100
  /\ 1 <= CoyotePulse.frequency p.
Proof. apply create_pulse_bounds. Qed.

Lemma create_pulse_stays_in_the_envelope_witness :
  let p := {| CoyotePulse.frequency := 200;
              CoyotePulse.intensity := 100;
              CoyotePulse.duration := 5 |} in
  @create_pulse sample_constants false 100000 1 infinity 250 = Some p
  /\ 5 <= CoyotePulse.duration p <= 240.
Proof.
  split; [vm_compute; reflexivity|].
  refine (proj1 (@create_pulse_stays_in_the_envelope sample_constants
                   false 100000 1 infinity 250 _ eq_refl eq_refl _)).
  vm_compute. reflexivity.
Defined.

(** X17: in direct mode (no funscript axis) a whole frequency of 1..1000 Hz
    that lies inside the channel's window always gives a pulse: the display
    frequency is the request saturated to 4..200 Hz and the duration is
    [1000 // f] saturated to 5..240 ms. *)
Theorem create_pulse_direct_mode_saturates `{Constants} (f : Z)
    (user_freq_min user_freq_max : float) (intensity : Z) :
  MIN_PULSE_DURATION_MS = 5 -> MAX_PULSE_DURATION_MS = 240 ->
  1 <= f <= 1000 ->
  clamp (float_of_int f) user_freq_min user_freq_max = float_of_int f ->
  create_pulse false (float_of_int f) user_freq_min user_freq_max intensity
  = Some {| CoyotePulse.frequency := clamp_int f 4 200;
            CoyotePulse.intensity := clamp_int intensity 0 100;
            CoyotePulse.duration := clamp_int (1000 / f) 5 240 |}.
Proof. apply create_pulse_direct. Qed.

Lemma create_pulse_direct_mode_saturates_witness :
  @create_pulse sample_constants false 30 10 100 40
  = Some {| CoyotePulse.frequency := 30;
            CoyotePulse.intensity := 40;
            CoyotePulse.duration := 33 |}.
Proof.
  refine (@create_pulse_direct_mode_saturates sample_constants 30 10 100 40
            eq_refl eq_refl _ _).
  - lia.
  - vm_compute. reflexivity.
Defined.

(** X18: the limits [_duration_limits] returns lie inside the hardware
    envelope, and a duration clamped to them by [_clamp_duration] lies
    inside it too; the flag tells whether the duration was changed, the
    residual is reset exactly then, and clamping again changes nothing. *)
Theorem clamped_durations_stay_in_the_envelope `{Constants}
    (g : PulseGenerator) (min_freq max_freq : float) (duration_ms : Z)
    (limits : Z * Z) :
  MIN_PULSE_DURATION_MS <= MAX_PULSE_DURATION_MS ->
  _duration_limits min_freq max_freq = Some limits ->
  let r := _clamp_duration g duration_ms limits in
  let clamped_duration := fst (fst r) in
  let clamped := snd (fst r) in
  let g' := snd r in
  MIN_PULSE_DURATION_MS <= fst limits <= snd limits
  /\ snd limits <= MAX_PULSE_DURATION_MS
  /\ fst limits <= clamped_duration <= snd limits
  /\ (clamped = false <-> clamped_duration = duration_ms)
  /\ (clamped = false <-> fst limits <= duration_ms <= snd limits)
  /\ g' = (if clamped then g<|_residual_ms := 0%float|> else g)
  /\ _clamp_duration g' clamped_duration limits = (clamped_duration, false, g').
Proof.
  intros Henvelope Hlimits. cbv zeta. destruct limits as [low high].
  destruct (_duration_limits_envelope _ _ _ _ Hlimits) as (Hlow & Hhigh & Horder).
  specialize (Horder Henvelope).
  pose proof (_clamp_duration_spec g duration_ms low high Horder) as Hclamp.
  destruct (_clamp_duration g duration_ms (low, high)) as [[clamped_duration clamped] g'].
  cbn [fst snd]. destruct Hclamp as (H1 & H2 & H3 & H4 & H5).
  split; [lia|]. split; [lia|]. split; [lia|].
  split; [exact H2|]. split; [exact H3|]. split; assumption.
Qed.

Lemma clamped_durations_stay_in_the_envelope_witness :
  10 <= fst (fst (_clamp_duration {| _phase := 0; _residual_ms := 0.25 |} 300 (10, 100)))
     <= 100.
Proof.
  refine (proj1 (proj2 (proj2
            (@clamped_durations_stay_in_the_envelope sample_constants
               {| _phase := 0; _residual_ms := 0.25 |} 10 100 300 (10, 100) _ _)))).
  - cbn. lia.
  - vm_compute. reflexivity.
Defined.

(** ** The battery *)

(** X19: a battery notification without a byte raises [IndexError] and
    changes nothing; otherwise the first byte becomes the battery level, a
    value within 0..255, and is the one signal emitted; nothing else of the
    object changes. *)
Theorem battery_notification_stores_the_first_byte (data : list byte) (w : World) :
  let r := _handle_battery_notification data w in
  match data with
  | [] => fst r = Raise IndexError /\ snd r = w
  | b :: _ =>
      fst r = Ret tt
      /\ self (snd r) = (self w)<|battery_level := Z_of_byte b|>
      /\ new_effects w (snd r) = [Emit (battery_level_changed (Z_of_byte b))]
      /\ 0 <= battery_level (self (snd r)) <= 255
  end.
Proof. exact (_handle_battery_notification_spec data w). Qed.

(** X20: [_read_battery_level] never raises, whatever the link does, and
    changes nothing of the object but the battery level; it emits the level
    it stores, or nothing when it stores none; without a live link it
    stores none. *)
Theorem battery_read_never_raises (env : Env) (w : World) :
  let r := _read_battery_level env w in
  let added := new_effects w (snd r) in
  fst r = Ret tt
  /\ self (snd r) = (self w)<|battery_level := battery_level (self (snd r))|>
  /\ ((battery_level (self (snd r)) = battery_level (self w) /\ signals_of added = [])
      \/ (exists b,
            battery_level (self (snd r)) = Z_of_byte b
            /\ signals_of added = [battery_level_changed (Z_of_byte b)]
            /\ link_up env w = true))
  /\ (link_up env w = false -> self (snd r) = self w /\ signals_of added = []).
Proof. exact (_read_battery_level_spec env w). Qed.

(** ** The update loop *)

(** X21: the update loop never raises, for any number of passes; it leaves
    the strengths, the stage, the client, the parameters and the settings
    as they are; and a pass without a tick source does nothing at all. *)
Theorem update_loop_leaves_the_connection_alone `{Constants}
    (env : Env) (fuel : nat) (last_battery_read : float) (w : World) :
  let r := update_loop_from env fuel last_battery_read w in
  (exists ended, fst r = Ret ended)
  /\ outside_update_loop w (snd r)
  /\ (algorithm (self w) = None ->
      update_iteration env last_battery_read w = (Ret last_battery_read, w)).
Proof.
  cbv zeta. split; [apply update_loop_from_returns|]. split.
  - apply update_loop_from_outside. unfold outside_update_loop. repeat split.
  - intros Hnone.
    pose proof (update_iteration_returns env last_battery_read w) as [_ Hidle].
    destruct (Hidle Hnone) as [Hret Hw].
    destruct (update_iteration env last_battery_read w) as [o w']. cbn [fst snd] in *.
    congruence.
Qed.
